(** * teensy-mon: a serial monitor for hot-pluggable Teensy boards

    A shallow embedding of [teensy-mon.py] and the properties of its three
    parts: the line colourising [OutputWriter], the device predicate
    [is_teensy], and the connected session [teensy_mon] together with the
    wait loop of [main] that starts it.

    Serial payload is Python 2 [str], embedded as [list ascii]; udev
    properties and device nodes are [string]; the [COLORS] dictionary and
    the property mapping of a udev device are finite maps. *)

From Stdlib Require Import ZArith Ascii String DecimalString.
From stdpp Require Import base gmap strings list.
From Equations Require Import Equations.

(** ** The Python string operations the program uses *)

Module Py.

Abbreviation str := (list ascii).

Definition lit (s : string) : str := list_ascii_of_string s.

Definition LF : ascii := "010".
Definition CR : ascii := "013".
Definition ESC : ascii := "027".

(** [s.find(c)] for a one-character [c]: the first index, or [-1]. *)
Fixpoint find (s : str) (c : ascii) : Z :=
  match s with
  | [] => (-1)%Z
  | x :: rest =>
      if Ascii.eqb x c then 0%Z
      else let i := find rest c in
           if (i <? 0)%Z then (-1)%Z else (i + 1)%Z
  end.

(** A slice bound, as Python normalises it against the length: negative
    bounds count from the end, and everything is clipped to [0..len]. *)
Definition bound (len i : Z) : Z :=
  if (i <? 0)%Z then Z.max 0 (len + i) else Z.min i len.

(** [s[lo:hi]] *)
Definition slice (s : str) (lo hi : Z) : str :=
  let len := Z.of_nat (length s) in
  let lo' := bound len lo in
  let hi' := bound len hi in
  take (Z.to_nat (hi' - lo')) (drop (Z.to_nat lo') s).

(** [s[lo:]] *)
Definition slice_from (s : str) (lo : Z) : str :=
  drop (Z.to_nat (bound (Z.of_nat (length s)) lo)) s.

(** ["%d" % n] for a natural number. *)
Definition decimal (n : nat) : str :=
  lit (NilEmpty.string_of_uint (Nat.to_uint n)).

End Py.

Import Py.

(** ** Colour table (lines 24-38) *)

(** ["\033[<attr>;%dm" % (30 + i)] *)
Definition color_escape (attr : string) (i : nat) : str :=
  ESC :: lit "[" ++ lit attr ++ lit ";" ++ decimal (30 + i) ++ lit "m".

Definition LT_BLACK : str := color_escape "1" 0.
Definition LT_RED : str := color_escape "1" 1.
Definition LT_GREEN : str := color_escape "1" 2.
Definition LT_YELLOW : str := color_escape "1" 3.
Definition LT_BLUE : str := color_escape "1" 4.
Definition LT_MAGENTA : str := color_escape "1" 5.
Definition LT_CYAN : str := color_escape "1" 6.
Definition LT_WHITE : str := color_escape "1" 7.
Definition DK_BLACK : str := color_escape "2" 0.
Definition DK_RED : str := color_escape "2" 1.
Definition DK_GREEN : str := color_escape "2" 2.
Definition DK_YELLOW : str := color_escape "2" 3.
Definition DK_BLUE : str := color_escape "2" 4.
Definition DK_MAGENTA : str := color_escape "2" 5.
Definition DK_CYAN : str := color_escape "2" 6.
Definition DK_WHITE : str := color_escape "2" 7.
Definition NO_COLOR : str := ESC :: lit "[0m".

Definition COLORS : gmap ascii str :=
  {[ "W"%char := LT_YELLOW;
     "I"%char := [];
     "D"%char := LT_BLUE;
     "C"%char := LT_RED;
     "E"%char := LT_RED ]}.

(** ** OutputWriter (lines 41-84) *)

Record OutputWriter := {
  buffered_output : str;
  column : nat;
  colored : bool
}.

(** [OutputWriter.__init__] *)
Definition OutputWriter_init : OutputWriter :=
  {| buffered_output := []; column := 0; colored := false |}.

(** One call of [sys.stdout.write(prefix + line_string + suffix)]. The three
    parts are kept apart, and the call is annotated with [self.column] as it
    was when the line was formatted and with the outcome of the test of
    lines 72-73, so that statements about the colouring can refer to them;
    [rendered] is the string the console receives. *)
Record emission := {
  at_column : nat;
  tagged : bool;
  prefix : str;
  line_string : str;
  suffix : str
}.

Definition rendered (e : emission) : str :=
  prefix e ++ line_string e ++ suffix e.

(** Everything the console received from a run of emissions. *)
Definition stdout_of (es : list emission) : str :=
  concat (rendered <$> es).

(** The bytes of the device in a run of emissions, escapes left out. *)
Definition payload_of (es : list emission) : str :=
  concat (line_string <$> es).

(** How one pass through the body of [while True] (lines 61-84) ends. *)
Inductive iteration :=
| Hold (self' : OutputWriter)
    (* lines 63-64: the string is kept back, [write] returns *)
| Last (e : emission) (self' : OutputWriter)
    (* lines 78-82: written, no newline, [write] returns *)
| More (e : emission) (self' : OutputWriter) (rest : str).
    (* lines 78-84: a line was written, the loop goes on with the rest *)

(** The test of lines 72-73; the length guard keeps both index reads in
    range, as [and] does in the source. *)
Definition line_tag (self : OutputWriter) (string : str) : bool :=
  (column self =? 0) && (2 <=? length string)
  && bool_decide (string !! 1 = Some ":"%char)
  && match string !! 0 with
     | Some k => bool_decide (is_Some (COLORS !! k))
     | None => false
     end.

(** [COLORS[string[0]]], read only where [line_tag] holds. *)
Definition tag_color (string : str) : str :=
  default [] (string !! 0 ≫= (COLORS !!.)).

Definition iterate (self : OutputWriter) (string : str) : iteration :=
  let nl_index := find string LF in
  if (column self =? 0) && (nl_index <? 0)%Z && (length string <? 2) then
    Hold {| buffered_output := string;
            column := column self;
            colored := colored self |}
  else
    let line_string :=
      if (nl_index <? 0)%Z then string else slice string 0 (nl_index + 1) in
    let tagged := line_tag self string in
    let prefix := if tagged then tag_color string else [] in
    let colored' := if tagged then true else colored self in
    let suffix := if (0 <=? nl_index)%Z && colored' then NO_COLOR else [] in
    let e := {| at_column := column self; tagged := tagged;
                prefix := prefix; line_string := line_string;
                suffix := suffix |} in
    if (nl_index <? 0)%Z then
      Last e {| buffered_output := buffered_output self;
                column := column self + length line_string;
                colored := colored' |}
    else
      More e {| buffered_output := buffered_output self;
                column := 0;
                colored := colored' |}
           (slice_from string (nl_index + 1)).

(** A value together with the equation that says where it came from, for
    the termination argument of the loop. *)
Definition inspect {A} (a : A) : {b : A | a = b} := exist _ a eq_refl.

(** The loop of lines 60-84: the writer when [write] returns, and the
    console writes in order. *)
Equations? write_loop (self : OutputWriter) (string : str)
  : OutputWriter * list emission by wf (length string) lt :=
write_loop self string with inspect (iterate self string) := {
  | exist _ (Hold self') _ => (self', [])
  | exist _ (Last e self') _ => (self', [e])
  | exist _ (More e self' rest) Hit =>
      let r := write_loop self' rest in (r.1, e :: r.2) }.
Proof.
  assert (Hrange : ∀ s : str,
    (find s LF = -1 ∨ 0 ≤ find s LF < Z.of_nat (length s))%Z).
  { induction s as [|x s IH]; simpl; [by left|].
    destruct (Ascii.eqb x LF); [right; lia|].
    destruct (Z.ltb_spec (find s LF) 0); [by left | right; lia]. }
  unfold iterate in Hit. destruct (Hrange string) as [Hf|Hf].
  - rewrite Hf in Hit. change (-1 <? 0)%Z with true in Hit.
    destruct ((column self =? 0) && true && (length string <? 2));
      discriminate.
  - destruct ((column self =? 0) && (find string LF <? 0)%Z
              && (length string <? 2)); [discriminate|].
    destruct (Z.ltb_spec (find string LF) 0); [lia|].
    injection Hit as _ _ <-. unfold slice_from, bound.
    destruct (Z.ltb_spec (find string LF + 1) 0); [lia|].
    rewrite length_drop. lia.
Qed.

(** [OutputWriter.write] *)
Definition write (self : OutputWriter) (string : str)
  : OutputWriter * list emission :=
  if 0 <? length (buffered_output self) then
    write_loop {| buffered_output := [];
                  column := column self;
                  colored := colored self |}
               (buffered_output self ++ string)
  else write_loop self string.

(** The pieces of what [iterate] builds, named for the statements below:
    the value of [self.colored] and of [prefix] after lines 72-75, and the
    writer with its buffer emptied as lines 57-59 leave it. *)
Definition colored_after (self : OutputWriter) (string : str) : bool :=
  if line_tag self string then true else colored self.

Definition prefix_for (self : OutputWriter) (string : str) : str :=
  if line_tag self string then tag_color string else [].

Definition cleared (self : OutputWriter) : OutputWriter :=
  {| buffered_output := [];
     column := column self;
     colored := colored self |}.

(** A string that ends in a newline. *)
Definition newline_terminated (s : str) : Prop := ∃ l, s = l ++ [LF].

(** *** Reading the console without the escapes *)

(** Every escape sequence the program defines. *)
Definition escape_codes : list str :=
  [ NO_COLOR;
    LT_BLACK; LT_RED; LT_GREEN; LT_YELLOW;
    LT_BLUE; LT_MAGENTA; LT_CYAN; LT_WHITE;
    DK_BLACK; DK_RED; DK_GREEN; DK_YELLOW;
    DK_BLUE; DK_MAGENTA; DK_CYAN; DK_WHITE ].

(** [s] begins with [p]. *)
Fixpoint starts_with (s p : str) {struct p} : bool :=
  match p, s with
  | [], _ => true
  | a :: p', b :: s' => Ascii.eqb a b && starts_with s' p'
  | _ :: _, [] => false
  end.

(** The length of the first of [codes] that [s] begins with. *)
Fixpoint escape_among (codes : list str) (s : str) : option nat :=
  match codes with
  | [] => None
  | code :: codes' =>
      if starts_with s code then Some (length code)
      else escape_among codes' s
  end.

Definition escape_at (s : str) : option nat := escape_among escape_codes s.

(** [s] read from left to right with every escape sequence left out;
    [skip] bytes of a sequence that has begun are still to be passed. *)
Fixpoint strip_from (skip : nat) (s : str) : str :=
  match s with
  | [] => []
  | c :: s' =>
      match skip with
      | S k => strip_from k s'
      | 0 =>
          match escape_at (c :: s') with
          | Some n => strip_from (n - 1) s'
          | None => c :: strip_from 0 s'
          end
      end
  end.

Definition strip_escapes (s : str) : str := strip_from 0 s.

(** [write] once per chunk, in order: the writer at the end and all console
    writes. *)
Fixpoint feed (self : OutputWriter) (chunks : list str)
  : OutputWriter * list emission :=
  match chunks with
  | [] => (self, [])
  | chunk :: chunks' =>
      let r := write self chunk in
      let r' := feed r.1 chunks' in
      (r'.1, r.2 ++ r'.2)
  end.

(** The writers a session can hold: a fresh one, and what [write] leaves. *)
Inductive reachable : OutputWriter → Prop :=
| reachable_init : reachable OutputWriter_init
| reachable_write self chunk :
    reachable self → reachable (write self chunk).1.

(** ** Devices and exceptions *)

(** The exceptions the program can meet. *)
Inductive exn :=
| KeyError (key : string)
| IndexError
| SerialException.

Inductive result (A : Type) :=
| Ok (a : A)
| Raise (e : exn).
Arguments Ok {A} a.
Arguments Raise {A} e.

#[global] Instance result_ret : MRet result := λ A a, Ok a.
#[global] Instance result_bind : MBind result := λ A B f m,
  match m with
  | Ok a => f a
  | Raise e => Raise e
  end.

(** A [pyudev.Device] of the tty subsystem: its node, the action of the
    notification that carried it ([None] for an enumerated device), and its
    udev properties, which the device offers as a mapping. *)
Record Device := {
  device_node : string;
  action : option string;
  properties : gmap string string
}.

(** [key in device] *)
Definition contains (device : Device) (key : string) : bool :=
  bool_decide (is_Some (properties device !! key)).

(** [device[key]] *)
Definition getitem (device : Device) (key : string) : result string :=
  match properties device !! key with
  | Some v => Ok v
  | None => Raise (KeyError key)
  end.

(** [s.startswith(p)] *)
Definition startswith (s p : string) : bool := String.prefix p s.

(** ** is_teensy (lines 87-99) *)

Definition is_teensy (device : Device) (serial_num : option string)
  : result bool :=
  if negb (contains device "ID_VENDOR") then Ok false
  else
    vendor ← getitem device "ID_VENDOR";
    if negb (startswith vendor "Teensy") then Ok false
    else
      match serial_num with
      | None => Ok true
      | Some wanted =>
          serial ← getitem device "ID_SERIAL_SHORT";
          Ok (bool_decide (serial = wanted))
      end.

(** A device whose vendor property is present and begins with "Teensy". *)
Definition vendor_qualifies (device : Device) : Prop :=
  ∃ vendor rest,
    properties device !! "ID_VENDOR"%string = Some vendor
    ∧ vendor = ("Teensy" ++ rest)%string.

(** ** teensy_mon (lines 102-165) *)

(** What a call into pyserial does: it returns, or it raises
    [SerialException]. *)
Inductive io (A : Type) :=
| Done (a : A)
| Failed.
Arguments Done {A} a.
Arguments Failed {A}.

(** One [(fileno, _)] entry of [epoll.poll()], with what the calls made for
    it will return: the descriptor of [monitor.poll()]; the outcome of
    [serial_port.read(256)]; the string of [sys.stdin.read(1)] and the
    outcome of the [serial_port.write] that follows. *)
Inductive ready :=
| MonitorReady (dev : Device)
| SerialReady (read : io str)
| StdinReady (data : str) (written : io unit).

(** The lines the program prints itself. *)
Inductive message :=
| Connected (port_name : string) (serial_num : string)
| UnableToOpen (port_name : string)
| Disconnected (port_name : string).

Inductive console_item :=
| Print (m : message)
| Out (e : emission).

(** The locals of [teensy_mon] and the two sinks it writes to. *)
Record Session := {
  port_name : string;
  output : OutputWriter;
  port_open : bool;
  console : list console_item;
  sent : list str
}.

(** Where control is after a piece of [teensy_mon]. *)
Inductive outcome :=
| Continue (s : Session)
| Return (s : Session)
| Raised (e : exn) (s : Session).

(** Lines 145-147 and 152-154: the message, [serial_port.close()],
    [return]. *)
Definition disconnect (s : Session) : Session :=
  {| port_name := port_name s;
     output := output s;
     port_open := false;
     console := console s ++ [Print (Disconnected (port_name s))];
     sent := sent s |}.

(** Line 157: [output.write(data)]. *)
Definition show (s : Session) (data : str) : Session :=
  let r := write (output s) data in
  {| port_name := port_name s;
     output := r.1;
     port_open := port_open s;
     console := console s ++ (Out <$> r.2);
     sent := sent s |}.

(** A completed [serial_port.write(unit)]. *)
Definition send (s : Session) (unit : str) : Session :=
  {| port_name := port_name s;
     output := output s;
     port_open := port_open s;
     console := console s;
     sent := sent s ++ [unit] |}.

(** A notification that the session's own device was removed. *)
Definition own_removal (s : Session) (dev : Device) : Prop :=
  device_node dev = port_name s ∧ action dev = Some "remove"%string.

(** [teensy_mon] returns. *)
Definition returns (o : outcome) : Prop := ∃ s', o = Return s'.

(** The body of [for fileno, _ in events] (lines 140-165) for one entry. *)
Definition handle (s : Session) (ev : ready) : outcome :=
  match ev with
  | MonitorReady dev =>
      if negb (bool_decide (device_node dev = port_name s))
         || negb (bool_decide (action dev = Some "remove"%string))
      then Continue s
      else Return (disconnect s)
  | SerialReady Failed => Return (disconnect s)
  | SerialReady (Done data) => Continue (show s data)
  | StdinReady data written =>
      match data with
      | [] => Raised IndexError s
      | c :: _ =>
          let unit := if Ascii.eqb c LF then [CR] else data in
          match written with
          | Done _ => Continue (send s unit)
          | Failed => Raised SerialException s
          end
      end
  end.

(** The [for] loop of lines 139-165 over one result of [epoll.poll()]. *)
Fixpoint for_events (s : Session) (events : list ready) : outcome :=
  match events with
  | [] => Continue s
  | ev :: events' =>
      match handle s ev with
      | Continue s' => for_events s' events'
      | stop => stop
      end
  end.

(** The [while True] loop of lines 137-165 over the successive results of
    [epoll.poll()]; [Continue] when they run out: the session is live and
    waits in [epoll.poll()]. *)
Fixpoint session_loop (s : Session) (polls : list (list ready)) : outcome :=
  match polls with
  | [] => Continue s
  | events :: polls' =>
      match for_events s events with
      | Continue s' => session_loop s' polls'
      | stop => stop
      end
  end.

(** [teensy_mon(monitor, device)], started with [screen] already on the
    console; [opened] is the outcome of [serial.Serial(...)]. *)
Definition teensy_mon (screen : list console_item) (device : Device)
  (opened : io unit) (polls : list (list ready)) : outcome :=
  let port_name := device_node device in
  let s := {| port_name := port_name; output := OutputWriter_init;
              port_open := false; console := screen; sent := [] |} in
  match getitem device "ID_SERIAL_SHORT" with
  | Raise e => Raised e s
  | Ok serial_num =>
      let screen := screen ++ [Print (Connected port_name serial_num)] in
      match opened with
      | Failed =>
          Return {| port_name := port_name; output := OutputWriter_init;
                    port_open := false;
                    console := screen ++ [Print (UnableToOpen port_name)];
                    sent := [] |}
      | Done _ =>
          session_loop {| port_name := port_name;
                          output := OutputWriter_init;
                          port_open := true;
                          console := screen;
                          sent := [] |} polls
      end
  end.

(** ** The wait loop of main (lines 241-249) *)

(** Where the process is when the notifications run out. *)
Inductive process :=
| InWaitLoop (screen : list console_item)
| InSession (s : Session)
| Exited (screen : list console_item) (traceback : exn).

(** A notification read by [monitor.poll()] in the wait loop, with what
    the world does if a session is started for it. *)
Record notification := {
  device : Device;
  opened : io unit;
  polls : list (list ready)
}.

(** [for device in iter(monitor.poll, None)] (lines 241-245), and the
    handler of line 248 around it; [monitor.poll()] blocks until there is a
    notification, so the loop is left only by an exception. *)
Fixpoint wait_loop (serial : option string) (screen : list console_item)
  (notes : list notification) : process :=
  match notes with
  | [] => InWaitLoop screen
  | note :: notes' =>
      if negb (bool_decide (action (device note) = Some "add"%string))
      then wait_loop serial screen notes'
      else
        match is_teensy (device note) serial with
        | Raise e => Exited screen e
        | Ok false => wait_loop serial screen notes'
        | Ok true =>
            match teensy_mon screen (device note) (opened note)
                             (polls note) with
            | Return s => wait_loop serial (console s) notes'
            | Continue s => InSession s
            | Raised e s => Exited (console s) e
            end
        end
  end.

(** ** Further notions for the writer *)

(** The column after the bytes [s], from column [col]: the bytes since the
    last newline. *)
Fixpoint column_after (col : nat) (s : str) : nat :=
  match s with
  | [] => col
  | c :: s' =>
      if Ascii.eqb c LF then column_after 0 s' else column_after (S col) s'
  end.

(** A console write that is one whole line, or a piece of a line with
    nothing behind it. *)
Definition one_line (e : emission) : Prop :=
  ((LF ∉ line_string e) ∧ suffix e = [])
  ∨ (∃ l, (LF ∉ l) ∧ line_string e = l ++ [LF]).

(** What a writer may hold back: at most one byte, never a newline, and
    only at a line start. *)
Definition held_at_line_start (self : OutputWriter) : Prop :=
  length (buffered_output self) < 2
  ∧ (LF ∉ buffered_output self)
  ∧ (buffered_output self ≠ [] → column self = 0).

(** ** Further notions for the session *)

(** The session an outcome carries. *)
Definition state_of (o : outcome) : Session :=
  match o with
  | Continue s => s
  | Return s => s
  | Raised _ s => s
  end.

(** The strings of the serial reads that succeeded, in order. *)
Definition reads (events : list ready) : list str :=
  omap (λ ev, match ev with
              | SerialReady (Done data) => Some data
              | _ => None
              end) events.

(** An event that cannot raise: stdin is not at its end and the write to
    the port succeeds. *)
Definition harmless (ev : ready) : Prop :=
  match ev with
  | StdinReady data written => data ≠ [] ∧ written = Done ()
  | _ => True
  end.


(** What has become of the port of session [s] at outcome [o]: on return
    it is closed and the disconnect message is the last thing printed; in
    every other case it is as it was. The port name never changes. *)
Definition port_kept (s : Session) (o : outcome) : Prop :=
  port_name (state_of o) = port_name s
  ∧ match o with
    | Return s' =>
        port_open s' = false
        ∧ last (console s') = Some (Print (Disconnected (port_name s)))
    | Continue s' => port_open s' = port_open s
    | Raised _ s' => port_open s' = port_open s
    end.

(** A device that, if it is a Teensy, reports its serial number. *)
Definition serial_known (device : Device) : Prop :=
  vendor_qualifies device →
  is_Some (properties device !! "ID_SERIAL_SHORT"%string).


(** A notification for which the wait loop starts a session. *)
Definition starts_session (serial : option string) (note : notification)
  : bool :=
  bool_decide (action (device note) = Some "add"%string)
  && match is_teensy (device note) serial with
     | Ok true => true
     | _ => false
     end.

(** ** The rest of main *)

(** *** The listing of [--list] (lines 203-212) *)

(** The lines the listing prints. *)
Inductive listing_line :=
| Found (serial_num : string) (node : string)
| NoneDetected.

(** How the listing ends: [main] returns, or an exception leaves it; with
    the lines printed until then. *)
Inductive listing :=
| Listed (lines : list listing_line)
| ListingRaised (lines : list listing_line) (e : exn).

(** The [for] loop of lines 205-209 and the test of lines 210-211. *)
Fixpoint list_loop (devices : list Device) (detected : bool)
  (lines : list listing_line) : listing :=
  match devices with
  | [] => Listed (if negb detected then lines ++ [NoneDetected] else lines)
  | device :: devices' =>
      match is_teensy device None with
      | Raise e => ListingRaised lines e
      | Ok false => list_loop devices' detected lines
      | Ok true =>
          match getitem device "ID_SERIAL_SHORT" with
          | Raise e => ListingRaised lines e
          | Ok serial_num =>
              list_loop devices' true
                (lines ++ [Found serial_num (device_node device)])
          end
      end
  end.

(** Lines 203-212, given the devices of [context.list_devices]. *)
Definition main_list (devices : list Device) : listing :=
  list_loop devices false [].

(** The line the listing owes a device: none if it is no Teensy. *)
Definition found_line (device : Device) : option listing_line :=
  match is_teensy device None, properties device !! "ID_SERIAL_SHORT"%string with
  | Ok true, Some serial_num => Some (Found serial_num (device_node device))
  | _, _ => None
  end.

(** *** The devices already present (lines 231-233) *)




(** *** The terminal settings (lines 220-223) *)

(** The constants of the [termios] module the program uses; their values
    belong to the platform. *)
Record termios_module := {
  ICANON : Z;
  ECHO : Z;
  VTIME : nat;
  VMIN : nat
}.

(** An entry of the control character list: a character, or a number as
    [VMIN] and [VTIME] are. *)
Inductive cc_value :=
| CcChar (c : ascii)
| CcInt (n : Z).

(** The list [termios.tcgetattr] returns, field by field. *)
Record tty_attr := {
  iflag : Z;
  oflag : Z;
  cflag : Z;
  lflag : Z;
  ispeed : Z;
  ospeed : Z;
  cc : list cc_value
}.

(** [l[i] = x] for an index that is not negative. *)
Definition setitem {A} (l : list A) (i : nat) (x : A) : result (list A) :=
  if i <? length l then Ok (<[i:=x]> l) else Raise IndexError.

(** Lines 221-223 on [new_settings]. *)
Definition raw_settings (termios : termios_module) (new_settings : tty_attr)
  : result tty_attr :=
  let lflag' :=
    Z.land (lflag new_settings)
           (Z.lnot (Z.lor (ICANON termios) (ECHO termios))) in
  cc1 ← setitem (cc new_settings) (VTIME termios) (CcInt 0);
  cc2 ← setitem cc1 (VMIN termios) (CcInt 1);
  Ok {| iflag := iflag new_settings;
        oflag := oflag new_settings;
        cflag := cflag new_settings;
        lflag := lflag';
        ispeed := ispeed new_settings;
        ospeed := ospeed new_settings;
        cc := cc2 |}.

(** ** Sample inputs *)

(** An info line, ["I: hello\n"]. *)
Definition hello_line : str := lit "I: hello" ++ [LF].

(** A writer that has shown one error line. *)
Definition after_error_line : OutputWriter :=
  (write OutputWriter_init (lit "E: x" ++ [LF])).1.

(** Three tty devices as udev reports them: a Teensy, a Teensy without
    serial number property, and a serial cable of another vendor. *)
Definition teensy_31 : Device :=
  {| device_node := "/dev/ttyACM0";
     action := Some "add"%string;
     properties := {[ "ID_VENDOR"%string := "Teensyduino"%string;
                      "ID_SERIAL_SHORT"%string := "12345"%string ]} |}.

Definition teensy_without_serial : Device :=
  {| device_node := "/dev/ttyACM0";
     action := Some "add"%string;
     properties := {[ "ID_VENDOR"%string := "Teensyduino"%string ]} |}.

Definition ftdi_cable : Device :=
  {| device_node := "/dev/ttyUSB0";
     action := Some "add"%string;
     properties := {[ "ID_VENDOR"%string := "FTDI"%string;
                      "ID_SERIAL_SHORT"%string := "12345"%string ]} |}.

(** A session on the port of [teensy_31], and the removal notification of
    a device node. *)
Definition live_session : Session :=
  {| port_name := "/dev/ttyACM0"; output := OutputWriter_init;
     port_open := true; console := []; sent := [] |}.

Definition removal_of (node : string) : Device :=
  {| device_node := node; action := Some "remove"%string; properties := ∅ |}.

(** The constants of [termios] on Linux, and the settings of a terminal in
    canonical mode with echo. *)
Definition linux_termios : termios_module :=
  {| ICANON := 2; ECHO := 8; VTIME := 5; VMIN := 6 |}.

Definition cooked : tty_attr :=
  {| iflag := 25862; oflag := 5; cflag := 191; lflag := 35387;
     ispeed := 15; ospeed := 15;
     cc := replicate 32 (CcChar "000") |}.

(** ** Facts about the string operations *)

Lemma find_absent (s : str) (c : ascii) : c ∉ s → find s c = (-1)%Z.
Proof.
  induction s as [|x rest IH]; [done|].
  rewrite not_elem_of_cons. intros [Hne Hrest]. simpl.
  destruct (Ascii.eqb_spec x c); [congruence|].
  rewrite (IH Hrest). done.
Qed.

Lemma find_first (l1 l2 : str) (c : ascii) :
  c ∉ l1 → find (l1 ++ c :: l2) c = Z.of_nat (length l1).
Proof.
  induction l1 as [|x rest IH]; simpl.
  - intros _. by rewrite Ascii.eqb_refl.
  - rewrite not_elem_of_cons. intros [Hne Hrest].
    destruct (Ascii.eqb_spec x c); [congruence|].
    rewrite (IH Hrest).
    destruct (Z.ltb_spec (Z.of_nat (length rest)) 0); lia.
Qed.

Lemma slice_first (l1 l2 : str) (c : ascii) :
  slice (l1 ++ c :: l2) 0 (Z.of_nat (length l1) + 1) = l1 ++ [c].
Proof.
  unfold slice, bound. rewrite length_app. simpl length.
  change (0 <? 0)%Z with false.
  destruct (Z.ltb_spec (Z.of_nat (length l1) + 1) 0); [lia|].
  rewrite Z.min_l by lia. rewrite Z.min_l by lia.
  change (Z.to_nat 0) with 0. rewrite drop_0.
  replace (Z.to_nat (Z.of_nat (length l1) + 1 - 0)) with (length (l1 ++ [c]))
    by (rewrite length_app; simpl; lia).
  rewrite (cons_middle c l1 l2), app_assoc. apply take_app_length.
Qed.

Lemma slice_from_first (l1 l2 : str) (c : ascii) :
  slice_from (l1 ++ c :: l2) (Z.of_nat (length l1) + 1) = l2.
Proof.
  unfold slice_from, bound. rewrite length_app. simpl length.
  destruct (Z.ltb_spec (Z.of_nat (length l1) + 1) 0); [lia|].
  rewrite Z.min_l by lia.
  replace (Z.to_nat (Z.of_nat (length l1) + 1)) with (length (l1 ++ [c]))
    by (rewrite length_app; simpl; lia).
  rewrite (cons_middle c l1 l2), app_assoc. apply drop_app_length.
Qed.

(** ** The loop body, case by case *)

(** No newline in the string: it is held back at a line start when shorter
    than two bytes, and written whole otherwise. *)
Lemma iterate_no_newline self string :
  LF ∉ string →
  iterate self string =
    if (column self =? 0) && (length string <? 2) then
      Hold {| buffered_output := string;
              column := column self;
              colored := colored self |}
    else
      Last {| at_column := column self;
              tagged := line_tag self string;
              prefix := if line_tag self string then tag_color string else [];
              line_string := string;
              suffix := [] |}
           {| buffered_output := buffered_output self;
              column := column self + length string;
              colored := if line_tag self string then true else colored self |}.
Proof.
  intros Hnl. unfold iterate. rewrite (find_absent _ _ Hnl).
  change (-1 <? 0)%Z with true. change (0 <=? -1)%Z with false.
  rewrite andb_true_r. done.
Qed.

(** A newline in the string: the line up to and including the first one is
    written, the column returns to 0 and the loop goes on after it. *)
Lemma iterate_newline self l1 l2 :
  LF ∉ l1 →
  iterate self (l1 ++ LF :: l2) =
    More {| at_column := column self;
            tagged := line_tag self (l1 ++ LF :: l2);
            prefix := if line_tag self (l1 ++ LF :: l2)
                      then tag_color (l1 ++ LF :: l2) else [];
            line_string := l1 ++ [LF];
            suffix := if (if line_tag self (l1 ++ LF :: l2)
                          then true else colored self)
                      then NO_COLOR else [] |}
         {| buffered_output := buffered_output self;
            column := 0;
            colored := if line_tag self (l1 ++ LF :: l2)
                       then true else colored self |}
         l2.
Proof.
  intros Hnl. unfold iterate. rewrite (find_first _ _ _ Hnl).
  destruct (Z.ltb_spec (Z.of_nat (length l1)) 0); [lia|].
  destruct (Z.leb_spec 0 (Z.of_nat (length l1))); [|lia].
  rewrite andb_false_r, andb_false_l.
  by rewrite slice_first, slice_from_first.
Qed.

Lemma write_loop_step self string :
  write_loop self string =
  match iterate self string with
  | Hold self' => (self', [])
  | Last e self' => (self', [e])
  | More e self' rest => let r := write_loop self' rest in (r.1, e :: r.2)
  end.
Proof.
  rewrite write_loop_equation_1. unfold inspect.
  assert (G : ∀ it (H : iterate self string = it),
    write_loop_unfold_clause_1 self string (exist _ it H) =
    match it with
    | Hold self' => (self', [])
    | Last e self' => (self', [e])
    | More e self' rest => let r := write_loop self' rest in (r.1, e :: r.2)
    end).
  { intros [s'|e s'|e s' rest] H; reflexivity. }
  apply G.
Qed.

(** ** The loop, line by line *)

(** Every string is a run of newline-terminated lines and a last piece
    without newline. *)
Lemma lines_ind (P : str → Prop) :
  (∀ s, LF ∉ s → P s) →
  (∀ l1 l2, LF ∉ l1 → P l2 → P (l1 ++ LF :: l2)) →
  ∀ s, P s.
Proof.
  intros Hlast Hline s.
  remember (length s) as n eqn:Hn. revert s Hn.
  induction (lt_wf n) as [n _ IH]. intros s ->.
  destruct (decide (LF ∈ s)) as [Hin|Hout]; [|by apply Hlast].
  apply list_elem_of_split_l in Hin as (l1 & l2 & -> & Hl1).
  apply Hline; [done|].
  eapply IH; [|reflexivity]. rewrite length_app. simpl. lia.
Qed.

Lemma write_loop_no_newline self string :
  LF ∉ string →
  write_loop self string =
    if (column self =? 0) && (length string <? 2) then
      ({| buffered_output := string;
          column := column self;
          colored := colored self |}, [])
    else
      ({| buffered_output := buffered_output self;
          column := column self + length string;
          colored := colored_after self string |},
       [{| at_column := column self;
           tagged := line_tag self string;
           prefix := prefix_for self string;
           line_string := string;
           suffix := [] |}]).
Proof.
  intros Hnl. rewrite write_loop_step, (iterate_no_newline _ _ Hnl).
  by destruct ((column self =? 0) && (length string <? 2)).
Qed.

Lemma write_loop_newline self l1 l2 :
  LF ∉ l1 →
  write_loop self (l1 ++ LF :: l2) =
    let r := write_loop {| buffered_output := buffered_output self;
                           column := 0;
                           colored := colored_after self (l1 ++ LF :: l2) |}
                        l2 in
    (r.1,
     {| at_column := column self;
        tagged := line_tag self (l1 ++ LF :: l2);
        prefix := prefix_for self (l1 ++ LF :: l2);
        line_string := l1 ++ [LF];
        suffix := if colored_after self (l1 ++ LF :: l2)
                  then NO_COLOR else [] |} :: r.2).
Proof.
  intros Hnl. by rewrite write_loop_step, (iterate_newline _ _ _ Hnl).
Qed.

(** [write] is the loop on the buffered byte and the chunk, started with an
    empty buffer. *)
Lemma write_eq self string :
  write self string =
  write_loop (cleared self) (buffered_output self ++ string).
Proof.
  unfold write, cleared. destruct self as [[|b buf] col clr]; done.
Qed.

Lemma line_tag_column self string :
  line_tag self string = true → column self = 0.
Proof.
  unfold line_tag. rewrite !andb_true_iff, Nat.eqb_eq. tauto.
Qed.

(** ** Payload *)

Lemma write_loop_payload self string :
  buffered_output self = [] →
  payload_of (write_loop self string).2
    ++ buffered_output (write_loop self string).1 = string.
Proof.
  revert self. induction string as [s Hs|l1 l2 Hl1 IH] using lines_ind;
    intros self Hbuf.
  - rewrite (write_loop_no_newline _ _ Hs).
    destruct ((column self =? 0) && (length s <? 2)); simpl; [done|].
    rewrite Hbuf. unfold payload_of. simpl. by rewrite !app_nil_r.
  - rewrite (write_loop_newline _ _ _ Hl1). cbn zeta.
    unfold payload_of in *. simpl. rewrite <- !app_assoc. simpl.
    by rewrite IH.
Qed.

Lemma write_payload self chunk :
  payload_of (write self chunk).2 ++ buffered_output (write self chunk).1
  = buffered_output self ++ chunk.
Proof. rewrite write_eq. by apply write_loop_payload. Qed.

Lemma payload_of_app es1 es2 :
  payload_of (es1 ++ es2) = payload_of es1 ++ payload_of es2.
Proof. unfold payload_of. by rewrite fmap_app, concat_app. Qed.

Lemma stdout_of_app es1 es2 :
  stdout_of (es1 ++ es2) = stdout_of es1 ++ stdout_of es2.
Proof. unfold stdout_of. by rewrite fmap_app, concat_app. Qed.

Lemma stdout_of_cons e es : stdout_of (e :: es) = rendered e ++ stdout_of es.
Proof. done. Qed.

Lemma feed_cons self chunk chunks :
  feed self (chunk :: chunks)
  = ((feed (write self chunk).1 chunks).1,
     (write self chunk).2 ++ (feed (write self chunk).1 chunks).2).
Proof. done. Qed.

Lemma feed_payload self chunks :
  payload_of (feed self chunks).2 ++ buffered_output (feed self chunks).1
  = buffered_output self ++ concat chunks.
Proof.
  revert self. induction chunks as [|chunk chunks IH]; intros self; simpl.
  - unfold payload_of. simpl. by rewrite app_nil_r.
  - rewrite payload_of_app, <- app_assoc, IH.
    rewrite app_assoc, write_payload. by rewrite <- app_assoc.
Qed.

(** ** The buffer, the tag test and the colour flag *)

Lemma write_loop_pending self string :
  buffered_output self = [] →
  length (buffered_output (write_loop self string).1) < 2.
Proof.
  revert self. induction string as [s Hs|l1 l2 Hl1 IH] using lines_ind;
    intros self Hbuf.
  - rewrite (write_loop_no_newline _ _ Hs).
    destruct (column self =? 0); simpl.
    + destruct (Nat.ltb_spec (length s) 2); simpl; [done|].
      rewrite Hbuf. simpl. lia.
    + rewrite Hbuf. simpl. lia.
  - rewrite (write_loop_newline _ _ _ Hl1). cbn zeta. simpl.
    by apply IH.
Qed.

(** The test of lines 72-73 succeeds only at column 0, and without it no
    prefix is written. *)
Lemma write_loop_tagged self string :
  Forall (λ e, (tagged e = true → at_column e = 0)
               ∧ (tagged e = false → prefix e = []))
         (write_loop self string).2.
Proof.
  revert self. induction string as [s Hs|l1 l2 Hl1 IH] using lines_ind;
    intros self.
  - rewrite (write_loop_no_newline _ _ Hs).
    destruct ((column self =? 0) && (length s <? 2)); simpl; [done|].
    constructor; [|done]. simpl. split.
    + apply line_tag_column.
    + unfold prefix_for. by intros ->.
  - rewrite (write_loop_newline _ _ _ Hl1). cbn zeta. simpl.
    constructor; [|by apply IH]. simpl. split.
    + apply line_tag_column.
    + unfold prefix_for. by intros ->.
Qed.

Lemma colored_after_keeps self string :
  colored self = true → colored_after self string = true.
Proof. unfold colored_after. intros ->. by destruct (line_tag _ _). Qed.

(** With the flag set, it stays set and every line written gets the
    reset. *)
Lemma write_loop_colored self string :
  colored self = true →
  colored (write_loop self string).1 = true
  ∧ Forall (λ e, newline_terminated (line_string e) → suffix e = NO_COLOR)
           (write_loop self string).2.
Proof.
  revert self. induction string as [s Hs|l1 l2 Hl1 IH] using lines_ind;
    intros self Hclr.
  - rewrite (write_loop_no_newline _ _ Hs).
    destruct ((column self =? 0) && (length s <? 2)); simpl; [done|].
    split; [by apply colored_after_keeps|].
    constructor; [|done]. simpl. intros [l ->].
    exfalso. apply Hs. rewrite elem_of_app, list_elem_of_singleton. by right.
  - rewrite (write_loop_newline _ _ _ Hl1). cbn zeta. simpl.
    pose proof (colored_after_keeps self (l1 ++ LF :: l2) Hclr) as Hafter.
    destruct (IH {| buffered_output := buffered_output self; column := 0;
                    colored := colored_after self (l1 ++ LF :: l2) |} Hafter)
      as [IH1 IH2].
    split; [done|]. constructor; [|done]. simpl. by rewrite Hafter.
Qed.

Lemma feed_colored self chunks :
  colored self = true →
  colored (feed self chunks).1 = true
  ∧ Forall (λ e, newline_terminated (line_string e) → suffix e = NO_COLOR)
           (feed self chunks).2.
Proof.
  revert self. induction chunks as [|chunk chunks IH]; intros self Hclr; simpl.
  - done.
  - destruct (write_loop_colored (cleared self)
                (buffered_output self ++ chunk) Hclr) as [H1 H2].
    rewrite <- write_eq in H1, H2.
    destruct (IH _ H1) as [IH1 IH2].
    split; [done|]. by apply Forall_app.
Qed.

(** ** Chunk boundaries *)

Lemma newline_not_a_tag : COLORS !! LF = None.
Proof. by vm_compute. Qed.

(** Once the line start is decided (not at column 0, or two bytes seen, or
    a newline seen), more input does not change the decision. *)
Lemma line_tag_app self (s t : str) :
  column self ≠ 0 ∨ 2 ≤ length s ∨ LF ∈ s →
  line_tag self (s ++ t) = line_tag self s
  ∧ prefix_for self (s ++ t) = prefix_for self s
  ∧ colored_after self (s ++ t) = colored_after self s.
Proof.
  intros Hdecided.
  assert (Htag : line_tag self (s ++ t) = line_tag self s
                 ∧ (line_tag self s = true → tag_color (s ++ t) = tag_color s)).
  { unfold line_tag, tag_color.
    destruct (Nat.eqb_spec (column self) 0) as [Hcol|Hcol]; [|done].
    destruct s as [|x [|y s]].
    - destruct Hdecided as [?|[Hlen|Hin]]; [done|simpl in Hlen; lia|].
      by apply not_elem_of_nil in Hin.
    - destruct Hdecided as [?|[Hlen|Hin]]; [done|simpl in Hlen; lia|].
      apply list_elem_of_singleton in Hin as <-. simpl.
      rewrite newline_not_a_tag.
      rewrite (bool_decide_eq_false_2 (is_Some None)) by (by intros [? ?]).
      by rewrite andb_false_r.
    - done. }
  destruct Htag as [Htag Hcolor].
  unfold prefix_for, colored_after. rewrite Htag.
  split; [done|]. split; [|done].
  destruct (line_tag self s) eqn:E; [by apply Hcolor|done].
Qed.

Lemma line_tag_off_column self string :
  column self ≠ 0 →
  line_tag self string = false
  ∧ prefix_for self string = []
  ∧ colored_after self string = colored self.
Proof.
  intros Hcol. unfold prefix_for, colored_after, line_tag.
  destruct (Nat.eqb_spec (column self) 0); done.
Qed.

(** The loop on [s ++ t] does what the loop on [s] followed by [write t]
    does: the same writer at the end and the same bytes on the console. *)
Lemma write_loop_app self (s t : str) :
  buffered_output self = [] →
  (write_loop self (s ++ t)).1 = (write (write_loop self s).1 t).1
  ∧ stdout_of (write_loop self (s ++ t)).2
    = stdout_of (write_loop self s).2
      ++ stdout_of (write (write_loop self s).1 t).2.
Proof.
  revert self. induction s as [s Hs|l1 l2 Hl1 IH] using lines_ind;
    intros self Hbuf.
  - rewrite (write_loop_no_newline _ s Hs).
    destruct ((column self =? 0) && (length s <? 2)) eqn:Hhold.
    + (* held back: the next write starts from the same string *)
      rewrite write_eq. unfold cleared. simpl.
      destruct self as [buf col clr]. simpl in Hbuf. subst buf. done.
    + (* written without newline *)
      assert (Hdecided : column self ≠ 0 ∨ 2 ≤ length s ∨ LF ∈ s).
      { apply andb_false_iff in Hhold as [H|H].
        - left. by apply Nat.eqb_neq.
        - right; left. by apply Nat.ltb_ge. }
      assert (Hoff : column self + length s ≠ 0).
      { destruct Hdecided as [?|[?|?]]; [lia|lia|done]. }
      destruct (line_tag_app self s t Hdecided) as (Htag & Hpre & Hclr).
      rewrite write_eq. unfold cleared. simpl. rewrite Hbuf. simpl.
      set (self1 := {| buffered_output := [];
                       column := column self + length s;
                       colored := colored_after self s |}).
      destruct (decide (LF ∈ t)) as [Hin|Hout].
      * apply list_elem_of_split_l in Hin as (t1 & t2 & -> & Ht1).
        assert (Hst1 : LF ∉ s ++ t1) by (by apply not_elem_of_app).
        rewrite (app_assoc s t1 (LF :: t2)) in *.
        rewrite (write_loop_newline self _ t2 Hst1).
        rewrite (write_loop_newline self1 _ t2 Ht1). cbn zeta.
        destruct (line_tag_off_column self1 (t1 ++ LF :: t2) Hoff)
          as (Htag1 & Hpre1 & Hclr1).
        rewrite Htag, Hpre, Hclr, Htag1, Hpre1, Hclr1. simpl. rewrite Hbuf.
        split; [done|].
        unfold stdout_of, rendered. simpl.
        by rewrite !app_nil_r, <- !app_assoc.
      * assert (Hst : LF ∉ s ++ t) by (by apply not_elem_of_app).
        rewrite (write_loop_no_newline self _ Hst).
        rewrite (write_loop_no_newline self1 _ Hout).
        destruct (line_tag_off_column self1 t Hoff)
          as (Htag1 & Hpre1 & Hclr1).
        rewrite Htag, Hpre, Hclr, Htag1, Hpre1, Hclr1.
        replace ((column self =? 0) && (length (s ++ t) <? 2)) with false.
        2:{ symmetry. apply andb_false_iff.
            destruct Hdecided as [?|[?|?]]; [|right|done].
            - left. by apply Nat.eqb_neq.
            - apply Nat.ltb_ge. rewrite length_app. lia. }
        replace (column self1 =? 0) with false
          by (symmetry; by apply Nat.eqb_neq).
        simpl. rewrite Hbuf, length_app, Nat.add_assoc.
        split; [done|].
        unfold stdout_of, rendered. simpl.
        by rewrite !app_nil_r, <- !app_assoc.
  - assert (Hdecided : column self ≠ 0 ∨ 2 ≤ length (l1 ++ LF :: l2)
                       ∨ LF ∈ l1 ++ LF :: l2).
    { right; right. rewrite elem_of_app, elem_of_cons. auto. }
    destruct (line_tag_app self _ t Hdecided) as (Htag & Hpre & Hclr).
    rewrite <- (app_assoc l1 (LF :: l2) t) in *. simpl app in *.
    rewrite (write_loop_newline self l1 (l2 ++ t) Hl1).
    rewrite (write_loop_newline self l1 l2 Hl1). cbn zeta.
    rewrite Htag, Hpre, Hclr. simpl.
    destruct (IH {| buffered_output := buffered_output self; column := 0;
                    colored := colored_after self (l1 ++ LF :: l2) |} Hbuf)
      as [IH1 IH2].
    split; [done|].
    rewrite !stdout_of_cons, IH2. by rewrite <- !app_assoc.
Qed.

(** [write] of a chunk delivered in two pieces: same writer, same console
    bytes. *)
Lemma write_app self (a b : str) :
  (write self (a ++ b)).1 = (write (write self a).1 b).1
  ∧ stdout_of (write self (a ++ b)).2
    = stdout_of (write self a).2 ++ stdout_of (write (write self a).1 b).2.
Proof.
  rewrite (write_eq self (a ++ b)), (write_eq self a), app_assoc.
  by apply write_loop_app.
Qed.

Lemma reachable_pending self :
  reachable self → length (buffered_output self) < 2.
Proof.
  intros [|self' chunk _]; [simpl; lia|].
  rewrite write_eq. by apply write_loop_pending.
Qed.

Lemma feed_reachable self chunks :
  reachable self → reachable (feed self chunks).1.
Proof.
  revert self. induction chunks as [|chunk chunks IH]; intros self Hr; [done|].
  simpl. apply IH. by constructor.
Qed.

(** ** The console read without the escapes *)

Lemma starts_with_before_newline (l r p : str) :
  LF ∉ p → starts_with (l ++ LF :: r) p = starts_with l p.
Proof.
  revert l. induction p as [|a p IH]; intros l Hp; [by destruct l|].
  apply not_elem_of_cons in Hp as [Ha Hp].
  destruct l as [|b l]; simpl.
  - destruct (Ascii.eqb_spec a LF); [congruence|done].
  - by rewrite IH.
Qed.

Lemma starts_with_length (s p : str) :
  starts_with s p = true → length p ≤ length s.
Proof.
  revert s. induction p as [|a p IH]; intros s; [simpl; lia|].
  destruct s as [|b s]; [done|]. simpl.
  rewrite andb_true_iff. intros [_ H]. apply IH in H. lia.
Qed.

Lemma escape_codes_shape :
  Forall (λ code : str, (LF ∉ code) ∧ 0 < length code) escape_codes.
Proof.
  unfold escape_codes. repeat constructor;
    solve [ apply (bool_decide_unpack _); by vm_compute | vm_compute; lia ].
Qed.

Lemma escape_at_before_newline (l r : str) :
  escape_at (l ++ LF :: r) = escape_at l.
Proof.
  unfold escape_at.
  induction escape_codes_shape as [|code codes [Hnl _] _ IH]; [done|].
  simpl. by rewrite (starts_with_before_newline _ _ _ Hnl), IH.
Qed.

Lemma escape_at_bound (s : str) (n : nat) :
  escape_at s = Some n → 0 < n ≤ length s.
Proof.
  unfold escape_at.
  induction escape_codes_shape as [|code codes [_ Hlen] _ IH]; [done|].
  simpl. destruct (starts_with s code) eqn:Hs; [|done].
  intros [= <-]. apply starts_with_length in Hs. lia.
Qed.

(** No escape sequence contains a newline, so none reaches across one. *)
Lemma strip_from_newline (k : nat) (l r : str) :
  k ≤ length l →
  strip_from k (l ++ LF :: r) = strip_from k l ++ LF :: strip_from 0 r.
Proof.
  revert k. induction l as [|c l IH]; intros k Hk.
  - assert (k = 0) as -> by (simpl in Hk; lia).
    change ([] ++ LF :: r) with ([] ++ LF :: r). simpl app.
    cbn [strip_from].
    pose proof (escape_at_before_newline [] r) as H. simpl app in H.
    rewrite H. done.
  - destruct k as [|k]; simpl app; cbn [strip_from].
    + pose proof (escape_at_before_newline (c :: l) r) as H.
      simpl app in H. rewrite H.
      destruct (escape_at (c :: l)) as [n|] eqn:Hn.
      * apply escape_at_bound in Hn. simpl in Hn. apply IH. lia.
      * simpl. f_equal. apply IH. lia.
    + apply IH. simpl in Hk. lia.
Qed.

Lemma strip_escapes_newline (l r : str) :
  strip_escapes (l ++ LF :: r) = strip_escapes l ++ LF :: strip_escapes r.
Proof. apply strip_from_newline. lia. Qed.

Lemma strip_escapes_code (code r : str) :
  code ∈ escape_codes → strip_escapes (code ++ r) = strip_escapes r.
Proof.
  unfold escape_codes. rewrite !elem_of_cons, elem_of_nil.
  intros H. repeat (destruct H as [->|H]; [reflexivity|]). done.
Qed.

Lemma COLORS_values (k : ascii) (v : str) :
  COLORS !! k = Some v → v = [] ∨ v ∈ escape_codes.
Proof.
  unfold COLORS. rewrite !lookup_insert_Some, lookup_singleton_Some.
  intros H.
  repeat (destruct H as [[_ <-]|[_ H]];
          [first [by left | right; apply (bool_decide_unpack _); by vm_compute]|]).
  destruct H as [_ <-]. right. apply (bool_decide_unpack _). by vm_compute.
Qed.

Lemma prefix_for_code self string :
  prefix_for self string = [] ∨ prefix_for self string ∈ escape_codes.
Proof.
  unfold prefix_for, tag_color.
  destruct (line_tag self string); [|by left].
  destruct (string !! 0) as [k|]; [|by left]. simpl.
  destruct (COLORS !! k) as [v|] eqn:Hk; [|by left].
  by apply (COLORS_values k).
Qed.

Lemma strip_escapes_inserted (p r : str) :
  p = [] ∨ p ∈ escape_codes → strip_escapes (p ++ r) = strip_escapes r.
Proof. intros [->|Hp]; [done|by apply strip_escapes_code]. Qed.

(** One run of the loop: the console bytes it wrote and the bytes it holds
    back, escapes left out, are the string it was given, escapes left
    out. *)
Lemma write_loop_strip self string :
  buffered_output self = [] →
  strip_escapes (stdout_of (write_loop self string).2
                 ++ buffered_output (write_loop self string).1)
  = strip_escapes string.
Proof.
  revert self. induction string as [s Hs|l1 l2 Hl1 IH] using lines_ind;
    intros self Hbuf.
  - rewrite (write_loop_no_newline _ _ Hs).
    destruct ((column self =? 0) && (length s <? 2)); simpl; [done|].
    rewrite Hbuf, stdout_of_cons. unfold rendered. simpl.
    rewrite !app_nil_r.
    apply strip_escapes_inserted, prefix_for_code.
  - rewrite (write_loop_newline _ _ _ Hl1). cbn zeta. simpl.
    rewrite stdout_of_cons. unfold rendered. simpl.
    rewrite <- !app_assoc.
    rewrite (strip_escapes_inserted _ _ (prefix_for_code _ _)).
    simpl. rewrite !strip_escapes_newline. do 2 f_equal.
    rewrite strip_escapes_inserted.
    + by apply IH.
    + destruct (colored_after self (l1 ++ LF :: l2)); [right|by left].
      unfold escape_codes. apply elem_of_cons. by left.
Qed.

(** Chunks delivered one by one or joined into one: same writer, same
    console bytes. *)
Lemma feed_joined self chunk chunks :
  (feed self (chunk :: chunks)).1
    = (write self (concat (chunk :: chunks))).1
  ∧ stdout_of (feed self (chunk :: chunks)).2
    = stdout_of (write self (concat (chunk :: chunks))).2.
Proof.
  revert self chunk. induction chunks as [|next chunks IH]; intros self chunk.
  - rewrite feed_cons. simpl. by rewrite !app_nil_r.
  - rewrite feed_cons. cbn [fst snd].
    destruct (IH (write self chunk).1 next) as [IH1 IH2].
    destruct (write_app self chunk (concat (next :: chunks))) as [H1 H2].
    rewrite stdout_of_app, IH1, IH2.
    change (concat (chunk :: next :: chunks))
      with (chunk ++ concat (next :: chunks)).
    by rewrite H1, H2.
Qed.

(** The console of a fresh writer read as bytes: with every escape
    sequence left out, what was written, followed by what is held back, is
    what was fed. *)
Lemma feed_strip (chunks : list str) :
  strip_escapes (stdout_of (feed OutputWriter_init chunks).2
                 ++ buffered_output (feed OutputWriter_init chunks).1)
  = strip_escapes (concat chunks).
Proof.
  destruct chunks as [|chunk chunks]; [done|].
  destruct (feed_joined OutputWriter_init chunk chunks) as [H1 H2].
  rewrite H1, H2, write_eq. by apply write_loop_strip.
Qed.

(** ** The colouring of whole lines *)

(** C1, as the code has it: a fresh writer given the one chunk
    ["I: hello\n"] writes these bytes with no colour escape in front (the
    colour of 'I' is the empty string) and with the reset escape behind
    them, because recognising the tag sets the colour flag. *)
Theorem write_info_line :
  (write OutputWriter_init hello_line).2
    = [{| at_column := 0; tagged := true; prefix := [];
          line_string := hello_line; suffix := NO_COLOR |}]
  ∧ stdout_of (write OutputWriter_init hello_line).2
    = hello_line ++ NO_COLOR.
Proof. by vm_compute. Qed.

(** C1, as stated, fails: the console does not receive exactly the bytes
    ["I: hello\n"], a reset escape follows them. *)
Lemma write_info_line_not_verbatim :
  stdout_of (write OutputWriter_init hello_line).2 ≠ hello_line.
Proof. by vm_compute. Qed.

(** C3, as the code has it: for every sequence of chunks given to a fresh
    writer, the chunks concatenated are the line strings written so far
    followed by the buffered bytes, of which there are fewer than two:
    nothing is dropped or duplicated, and at most one byte is still held
    back. The same holds of the console read as plain bytes, once the
    escape sequences are left out on both sides. *)
Theorem feed_preserves_payload (chunks : list str) :
  concat chunks
    = payload_of (feed OutputWriter_init chunks).2
      ++ buffered_output (feed OutputWriter_init chunks).1
  ∧ length (buffered_output (feed OutputWriter_init chunks).1) < 2
  ∧ strip_escapes (concat chunks)
    = strip_escapes (stdout_of (feed OutputWriter_init chunks).2
                     ++ buffered_output (feed OutputWriter_init chunks).1).
Proof.
  split; [|split].
  - by rewrite feed_payload.
  - apply reachable_pending, feed_reachable. constructor.
  - by rewrite feed_strip.
Qed.

(** C3, as stated, fails: after the single chunk ["W"] nothing has been
    written, the byte waits in the buffer. *)
Lemma feed_payload_can_lag :
  ¬ (∀ chunks : list str,
       payload_of (feed OutputWriter_init chunks).2 = concat chunks).
Proof. intros H. specialize (H [lit "W"]). by vm_compute in H. Qed.

(** C6: from any writer, ["W"] and then [":"] put the same bytes on the
    console as ["W:"] in one chunk, and leave the same writer. *)
Theorem write_tag_split (self : OutputWriter) :
  stdout_of (feed self [lit "W"; lit ":"]).2
    = stdout_of (write self (lit "W:")).2
  ∧ (feed self [lit "W"; lit ":"]).1 = (write self (lit "W:")).1.
Proof.
  destruct (write_app self (lit "W") (lit ":")) as [H1 H2].
  change (lit "W" ++ lit ":") with (lit "W:") in *.
  rewrite !feed_cons. cbn [feed fst snd].
  by rewrite app_nil_r, stdout_of_app, H1, H2.
Qed.

(** From a fresh writer both deliveries colour the tag. *)
Example write_tag_split_fresh :
  stdout_of (feed OutputWriter_init [lit "W"; lit ":"]).2
  = LT_YELLOW ++ lit "W:".
Proof. by vm_compute. Qed.

(** C7: once the colour flag of a writer is set, it is set after every
    further chunk, and every line string written from then on that ends in
    a newline is followed by the reset escape, whether or not that line
    had a tag. *)
Theorem colored_never_reset (self : OutputWriter) (chunks : list str) :
  colored self = true →
  colored (feed self chunks).1 = true
  ∧ Forall (λ e, newline_terminated (line_string e) → suffix e = NO_COLOR)
           (feed self chunks).2.
Proof. apply feed_colored. Qed.

(** C9: after [write] on a reachable writer fewer than two bytes are
    buffered, and each console write of the call that passed the tag test,
    or that carries a prefix, was formatted with the writer at column 0. *)
Theorem write_invariant (self : OutputWriter) (chunk : str) :
  reachable self →
  length (buffered_output (write self chunk).1) < 2
  ∧ Forall (λ e, (tagged e = true → at_column e = 0)
                 ∧ (prefix e ≠ [] → at_column e = 0))
           (write self chunk).2.
Proof.
  intros _. rewrite write_eq. split; [by apply write_loop_pending|].
  eapply Forall_impl; [apply write_loop_tagged|].
  intros e [Htag Hpre]. split; [done|].
  destruct (tagged e); [auto|]. intros Hne. by destruct Hne; apply Hpre.
Qed.

Lemma colored_never_reset_witness :
  colored after_error_line = true
  ∧ colored (feed after_error_line [lit "plain" ++ [LF]]).1 = true
  ∧ Forall (λ e, newline_terminated (line_string e) → suffix e = NO_COLOR)
           (feed after_error_line [lit "plain" ++ [LF]]).2.
Proof.
  split; [by vm_compute|].
  apply (colored_never_reset after_error_line [lit "plain" ++ [LF]]).
  by vm_compute.
Defined.

(** The line after a coloured one has no tag and no prefix, and still gets
    the reset. *)
Example plain_line_gets_reset :
  (feed after_error_line [lit "plain" ++ [LF]]).2
  = [{| at_column := 0; tagged := false; prefix := [];
        line_string := lit "plain" ++ [LF]; suffix := NO_COLOR |}].
Proof. by vm_compute. Qed.

Lemma write_invariant_witness :
  length (buffered_output (write OutputWriter_init (lit "W")).1) < 2
  ∧ Forall (λ e, (tagged e = true → at_column e = 0)
                 ∧ (prefix e ≠ [] → at_column e = 0))
           (write OutputWriter_init (lit "W")).2.
Proof. apply (write_invariant OutputWriter_init (lit "W")). constructor. Defined.

(** ** is_teensy *)

Lemma startswith_spec (s p : string) :
  startswith s p = true ↔ ∃ rest, s = (p ++ rest)%string.
Proof.
  unfold startswith. revert s. induction p as [|a p IH]; intros s.
  - split; [by exists s|by destruct s].
  - destruct s as [|b s].
    + split; [done|]. intros [rest H]. discriminate H.
    + change (String.prefix (String a p) (String b s))
        with (if ascii_dec a b then String.prefix p s else false).
      destruct (ascii_dec a b) as [->|Hne].
      * rewrite IH. split; intros [rest H]; exists rest.
        -- change (String b s = String b (p ++ rest)%string). by rewrite H.
        -- change (String b s = String b (p ++ rest)%string) in H.
           congruence.
      * split; [done|]. intros [rest H].
        change (String b s = String a (p ++ rest)%string) in H. congruence.
Qed.

Lemma is_teensy_vendor device serial_num :
  vendor_qualifies device →
  is_teensy device serial_num
  = match serial_num with
    | None => Ok true
    | Some wanted =>
        match properties device !! "ID_SERIAL_SHORT"%string with
        | Some serial => Ok (bool_decide (serial = wanted))
        | None => Raise (KeyError "ID_SERIAL_SHORT")
        end
    end.
Proof.
  intros (vendor & rest & Hv & Hpre).
  assert (Hs : startswith vendor "Teensy" = true)
    by (apply startswith_spec; by exists rest).
  unfold is_teensy, contains, getitem. rewrite Hv.
  rewrite bool_decide_eq_true_2 by done. simpl. rewrite Hs. simpl.
  destruct serial_num as [wanted|]; [|done].
  by destruct (properties device !! "ID_SERIAL_SHORT"%string).
Qed.

Lemma is_teensy_other_vendor device serial_num :
  ¬ vendor_qualifies device → is_teensy device serial_num = Ok false.
Proof.
  intros Hnot. unfold is_teensy, contains, getitem.
  destruct (properties device !! "ID_VENDOR"%string) as [vendor|] eqn:Hv.
  - rewrite bool_decide_eq_true_2 by done. simpl.
    destruct (startswith vendor "Teensy") eqn:Hs; [|done].
    exfalso. apply Hnot. apply startswith_spec in Hs as [rest ->].
    by exists ("Teensy" ++ rest)%string, rest.
  - rewrite bool_decide_eq_false_2 by (by intros [? ?]). done.
Qed.

(** C4: [is_teensy] returns [False] for every device whose vendor property
    is absent or does not begin with "Teensy", whatever serial number is
    asked for; it returns [True] for every other device when none is asked
    for; and when one is, it returns [True] exactly if the device's serial
    number is that one. *)
Theorem is_teensy_matches (device : Device) :
  (¬ vendor_qualifies device →
     ∀ serial_num, is_teensy device serial_num = Ok false)
  ∧ (vendor_qualifies device → is_teensy device None = Ok true)
  ∧ (vendor_qualifies device →
     ∀ wanted, is_teensy device (Some wanted) = Ok true
               ↔ properties device !! "ID_SERIAL_SHORT"%string = Some wanted).
Proof.
  split; [|split].
  - intros Hnot serial_num. by apply is_teensy_other_vendor.
  - intros Hq. by rewrite is_teensy_vendor.
  - intros Hq wanted. rewrite is_teensy_vendor by done.
    destruct (properties device !! "ID_SERIAL_SHORT"%string) as [serial|].
    + split.
      * intros [= H]. apply bool_decide_eq_true_1 in H. by subst.
      * intros [= ->]. by rewrite bool_decide_eq_true_2.
    + split; intros; discriminate.
Qed.

Lemma teensy_31_qualifies : vendor_qualifies teensy_31.
Proof. exists "Teensyduino"%string, "duino"%string. by vm_compute. Defined.

Lemma teensy_without_serial_qualifies : vendor_qualifies teensy_without_serial.
Proof. exists "Teensyduino"%string, "duino"%string. by vm_compute. Defined.

Lemma ftdi_cable_other_vendor : ¬ vendor_qualifies ftdi_cable.
Proof.
  intros (vendor & rest & Hv & Hpre). vm_compute in Hv.
  injection Hv as <-. discriminate.
Defined.

Lemma is_teensy_matches_witness :
  is_teensy ftdi_cable (Some "12345"%string) = Ok false
  ∧ is_teensy teensy_31 None = Ok true
  ∧ (is_teensy teensy_31 (Some "12345"%string) = Ok true
     ↔ properties teensy_31 !! "ID_SERIAL_SHORT"%string = Some "12345"%string).
Proof.
  split; [|split].
  - apply (proj1 (is_teensy_matches ftdi_cable) ftdi_cable_other_vendor).
  - apply (proj1 (proj2 (is_teensy_matches teensy_31)) teensy_31_qualifies).
  - apply (proj2 (proj2 (is_teensy_matches teensy_31)) teensy_31_qualifies).
Defined.

(** C10: for a device whose vendor property begins with "Teensy" and which
    has no serial-number property, [is_teensy] with a serial number asked
    for raises [KeyError] and returns nothing. *)
Theorem is_teensy_missing_serial (device : Device) (wanted : string) :
  vendor_qualifies device →
  properties device !! "ID_SERIAL_SHORT"%string = None →
  is_teensy device (Some wanted) = Raise (KeyError "ID_SERIAL_SHORT").
Proof.
  intros Hq Hnone. rewrite is_teensy_vendor by done. by rewrite Hnone.
Qed.

Lemma is_teensy_missing_serial_witness :
  is_teensy teensy_without_serial (Some "12345"%string)
  = Raise (KeyError "ID_SERIAL_SHORT").
Proof.
  apply (is_teensy_missing_serial teensy_without_serial "12345").
  - exact teensy_without_serial_qualifies.
  - by vm_compute.
Defined.

(** ** The session *)

Lemma handle_own_removal s dev :
  own_removal s dev → handle s (MonitorReady dev) = Return (disconnect s).
Proof.
  intros [Hnode Hact]. simpl.
  by rewrite !bool_decide_eq_true_2.
Qed.

Lemma handle_other_notification s dev :
  ¬ own_removal s dev → handle s (MonitorReady dev) = Continue s.
Proof.
  intros Hnot. simpl.
  destruct (decide (device_node dev = port_name s)) as [Hnode|Hnode].
  - destruct (decide (action dev = Some "remove"%string)) as [Hact|Hact].
    + by destruct Hnot.
    + rewrite (bool_decide_eq_false_2 _ Hact). by rewrite orb_true_r.
  - by rewrite (bool_decide_eq_false_2 _ Hnode).
Qed.

(** C5: a notification polled in a session makes [teensy_mon] return, with
    the port closed, exactly if it is for the session's device node and its
    action is "remove"; on any other notification the session is unchanged
    and the loop goes on with the next event. *)
Theorem hotplug_ends_session_iff (s : Session) (dev : Device) :
  (returns (handle s (MonitorReady dev)) ↔ own_removal s dev)
  ∧ (own_removal s dev →
     ∀ events polls,
       session_loop s ((MonitorReady dev :: events) :: polls)
       = Return (disconnect s))
  ∧ (¬ own_removal s dev →
     handle s (MonitorReady dev) = Continue s
     ∧ ∀ events polls,
         session_loop s ((MonitorReady dev :: events) :: polls)
         = session_loop s (events :: polls)).
Proof.
  split; [|split].
  - split.
    + intros [s' H]. destruct (decide (own_removal s dev)) as [|Hnot]; [done|].
      rewrite (handle_other_notification _ _ Hnot) in H. discriminate.
    + intros H. exists (disconnect s). by apply handle_own_removal.
  - intros H events polls. cbn [session_loop for_events].
    by rewrite (handle_own_removal _ _ H).
  - intros H. split; [by apply handle_other_notification|].
    intros events polls. cbn [session_loop for_events].
    by rewrite (handle_other_notification _ _ H).
Qed.

Lemma hotplug_ends_session_iff_witness :
  session_loop live_session [[MonitorReady (removal_of "/dev/ttyACM0")]]
    = Return (disconnect live_session)
  ∧ session_loop live_session [[MonitorReady (removal_of "/dev/ttyACM1")]]
    = Continue live_session
  ∧ session_loop live_session [[MonitorReady teensy_31]]
    = Continue live_session.
Proof.
  split; [|split].
  - apply (proj1 (proj2 (hotplug_ends_session_iff live_session
                           (removal_of "/dev/ttyACM0")))).
    by split.
  - destruct (proj2 (proj2 (hotplug_ends_session_iff live_session
                              (removal_of "/dev/ttyACM1")))) as [_ H].
    + intros [Hnode _]. discriminate Hnode.
    + by rewrite H.
  - destruct (proj2 (proj2 (hotplug_ends_session_iff live_session
                              teensy_31))) as [_ H].
    + intros [_ Hact]. discriminate Hact.
    + by rewrite H.
Defined.

(** C8: when [serial_port.read] fails, [teensy_mon] returns at once, with
    the port closed and in the very state a removal notification for the
    session's device leaves; no notification is involved. *)
Theorem read_failure_ends_session (s : Session)
  (events : list ready) (polls : list (list ready)) :
  session_loop s ((SerialReady Failed :: events) :: polls)
    = Return (disconnect s)
  ∧ port_open (disconnect s) = false
  ∧ ∀ props,
      handle s (SerialReady Failed)
      = handle s (MonitorReady {| device_node := port_name s;
                                  action := Some "remove"%string;
                                  properties := props |}).
Proof.
  split; [done|]. split; [done|].
  intros props. symmetry. by apply handle_own_removal.
Qed.

(** After a session that returned, the wait loop reads the next
    notification; after one that raised, the process is over. *)
Lemma wait_loop_session serial screen note notes :
  action (device note) = Some "add"%string →
  is_teensy (device note) serial = Ok true →
  wait_loop serial screen (note :: notes)
  = match teensy_mon screen (device note) (opened note) (polls note) with
    | Return s => wait_loop serial (console s) notes
    | Continue s => InSession s
    | Raised e s => Exited (console s) e
    end.
Proof.
  intros Hadd Hteensy. cbn [wait_loop].
  rewrite (bool_decide_eq_true_2 _ Hadd), Hteensy. done.
Qed.

(** A Teensy is plugged in, its port fails on the first read, and another
    one is plugged in: the first session is over, the second is live. *)
Example read_failure_back_to_waiting :
  wait_loop None []
    [ {| device := teensy_31; opened := Done ();
         polls := [[SerialReady Failed]] |};
      {| device := teensy_31; opened := Done (); polls := [] |} ]
  = InSession
      {| port_name := "/dev/ttyACM0"; output := OutputWriter_init;
         port_open := true;
         console := [ Print (Connected "/dev/ttyACM0" "12345");
                      Print (Disconnected "/dev/ttyACM0");
                      Print (Connected "/dev/ttyACM0" "12345") ];
         sent := [] |}.
Proof. by vm_compute. Qed.

(** C2, on the code: when [serial_port.write] fails, [SerialException]
    leaves [teensy_mon] with the session as it was, the port not closed;
    the other events of the poll and all later polls are not looked at. *)
Theorem write_failure_leaves_session (s : Session) (c : ascii) (data : str)
  (events : list ready) (polls : list (list ready)) :
  session_loop s ((StdinReady (c :: data) Failed :: events) :: polls)
  = Raised SerialException s.
Proof. done. Qed.

(** A Teensy is plugged in, a key is typed and the write to the port fails:
    the process ends in the handler of line 248 with the port still open,
    and the second Teensy is never waited for. *)
Example write_failure_ends_process :
  teensy_mon [] teensy_31 (Done ()) [[StdinReady (lit "a") Failed]]
  = Raised SerialException
      {| port_name := "/dev/ttyACM0"; output := OutputWriter_init;
         port_open := true;
         console := [ Print (Connected "/dev/ttyACM0" "12345") ];
         sent := [] |}
  ∧ wait_loop None []
      [ {| device := teensy_31; opened := Done ();
           polls := [[StdinReady (lit "a") Failed]] |};
        {| device := teensy_31; opened := Done (); polls := [] |} ]
    = Exited [ Print (Connected "/dev/ttyACM0" "12345") ] SerialException.
Proof. by vm_compute. Qed.

(** ** More on the writer *)

Lemma write_loop_held self string :
  buffered_output self = [] → held_at_line_start (write_loop self string).1.
Proof.
  revert self. induction string as [s Hs|l1 l2 Hl1 IH] using lines_ind;
    intros self Hbuf.
  - rewrite (write_loop_no_newline _ _ Hs).
    unfold held_at_line_start.
    destruct (Nat.eqb_spec (column self) 0) as [Hcol|Hcol]; simpl.
    + destruct (Nat.ltb_spec (length s) 2); simpl.
      * done.
      * rewrite Hbuf. split; [simpl; lia|]. split; [apply not_elem_of_nil|done].
    + rewrite Hbuf. split; [simpl; lia|]. split; [apply not_elem_of_nil|done].
  - rewrite (write_loop_newline _ _ _ Hl1). cbn zeta. simpl. by apply IH.
Qed.

Lemma reachable_held self : reachable self → held_at_line_start self.
Proof.
  intros [|self' chunk _].
  - split; [simpl; lia|]. split; [apply not_elem_of_nil|done].
  - rewrite write_eq. by apply write_loop_held.
Qed.

(** Nothing to write: nothing written, nothing changed. *)
Lemma write_nothing self :
  held_at_line_start self →
  (write self []).1 = self ∧ stdout_of (write self []).2 = [].
Proof.
  intros (Hlen & Hnl & Hcol). rewrite write_eq, app_nil_r.
  rewrite (write_loop_no_newline _ _ Hnl).
  destruct self as [buf col clr]. unfold cleared. simpl in *.
  destruct (Nat.eqb_spec col 0) as [->|Hne]; simpl.
  - destruct (Nat.ltb_spec (length buf) 2); [done|lia].
  - assert (buf = []) as ->.
    { destruct buf; [done|]. by destruct Hne; apply Hcol. }
    destruct (line_tag_off_column
                {| buffered_output := []; column := col; colored := clr |} []
                Hne) as (_ & Hpre & Hclr).
    simpl in Hclr. rewrite Hpre, Hclr, Nat.add_0_r. done.
Qed.

Lemma feed_as_write self chunks :
  held_at_line_start self →
  (feed self chunks).1 = (write self (concat chunks)).1
  ∧ stdout_of (feed self chunks).2 = stdout_of (write self (concat chunks)).2.
Proof.
  intros Hheld. destruct chunks as [|chunk chunks].
  - destruct (write_nothing self Hheld) as [H1 H2]. simpl.
    by rewrite H1, H2.
  - apply feed_joined.
Qed.

(** X1: an empty chunk, as a serial read that timed out yields, leaves a
    reachable writer as it is and puts no byte on the console. *)
Theorem write_empty_chunk (self : OutputWriter) :
  reachable self →
  (write self []).1 = self ∧ stdout_of (write self []).2 = [].
Proof. intros Hr. by apply write_nothing, reachable_held. Qed.

Lemma write_empty_chunk_witness :
  (write after_error_line []).1 = after_error_line
  ∧ stdout_of (write after_error_line []).2 = [].
Proof.
  apply (write_empty_chunk after_error_line).
  apply (reachable_write OutputWriter_init). constructor.
Defined.

(** X2: how the serial data is cut into chunks does not matter: two
    sequences of chunks with the same bytes, fed to the same reachable
    writer, put the same bytes on the console and leave the same writer. *)
Theorem feed_regroup (self : OutputWriter) (chunks1 chunks2 : list str) :
  reachable self →
  concat chunks1 = concat chunks2 →
  (feed self chunks1).1 = (feed self chunks2).1
  ∧ stdout_of (feed self chunks1).2 = stdout_of (feed self chunks2).2.
Proof.
  intros Hr Heq. apply reachable_held in Hr.
  destruct (feed_as_write self chunks1 Hr) as [H1 H2].
  destruct (feed_as_write self chunks2 Hr) as [H3 H4].
  by rewrite H1, H2, H3, H4, Heq.
Qed.

Lemma feed_regroup_witness :
  (feed OutputWriter_init [lit "E"; lit ": o"; lit "ops" ++ [LF]]).1
  = (feed OutputWriter_init [lit "E: oops" ++ [LF]]).1
  ∧ stdout_of (feed OutputWriter_init
                 [lit "E"; lit ": o"; lit "ops" ++ [LF]]).2
    = stdout_of (feed OutputWriter_init [lit "E: oops" ++ [LF]]).2.
Proof.
  apply (feed_regroup OutputWriter_init
           [lit "E"; lit ": o"; lit "ops" ++ [LF]] [lit "E: oops" ++ [LF]]).
  - constructor.
  - reflexivity.
Defined.

Lemma column_after_app col (s t : str) :
  column_after col (s ++ t) = column_after (column_after col s) t.
Proof.
  revert col. induction s as [|c s IH]; intros col; [done|].
  simpl. by destruct (Ascii.eqb c LF).
Qed.

Lemma column_after_no_newline col (s : str) :
  LF ∉ s → column_after col s = col + length s.
Proof.
  revert col. induction s as [|c s IH]; intros col Hs; simpl; [lia|].
  apply not_elem_of_cons in Hs as [Hc Hs].
  destruct (Ascii.eqb_spec c LF); [congruence|]. rewrite IH by done. lia.
Qed.

Lemma column_after_line col (l : str) :
  column_after col (l ++ [LF]) = 0.
Proof.
  revert col. induction l as [|c l IH]; intros col; [reflexivity|].
  simpl. by destruct (Ascii.eqb c LF).
Qed.

Lemma payload_of_cons e es :
  payload_of (e :: es) = line_string e ++ payload_of es.
Proof. done. Qed.

Lemma write_loop_column self string :
  column (write_loop self string).1
  = column_after (column self) (payload_of (write_loop self string).2).
Proof.
  revert self. induction string as [s Hs|l1 l2 Hl1 IH] using lines_ind;
    intros self.
  - rewrite (write_loop_no_newline _ _ Hs).
    destruct ((column self =? 0) && (length s <? 2)); simpl; [done|].
    rewrite payload_of_cons. simpl. rewrite app_nil_r.
    by rewrite column_after_no_newline.
  - rewrite (write_loop_newline _ _ _ Hl1). cbn zeta. simpl.
    rewrite payload_of_cons. simpl.
    by rewrite column_after_app, column_after_line, IH.
Qed.

(** X3: [self.column] counts the bytes written since the last newline:
    after any chunks it is the column the written bytes lead to from the
    column before. *)
Theorem feed_column (self : OutputWriter) (chunks : list str) :
  column (feed self chunks).1
  = column_after (column self) (payload_of (feed self chunks).2).
Proof.
  revert self. induction chunks as [|chunk chunks IH]; intros self; [done|].
  rewrite feed_cons. cbn [fst snd].
  rewrite payload_of_app, column_after_app, IH. f_equal.
  rewrite write_eq. exact (write_loop_column (cleared self) _).
Qed.

Lemma write_loop_lines self string :
  Forall one_line (write_loop self string).2
  ∧ ∀ i e, (write_loop self string).2 !! i = Some e →
           S i < length (write_loop self string).2 →
           newline_terminated (line_string e).
Proof.
  revert self. induction string as [s Hs|l1 l2 Hl1 IH] using lines_ind;
    intros self.
  - rewrite (write_loop_no_newline _ _ Hs).
    destruct ((column self =? 0) && (length s <? 2)); simpl.
    + split; [done|]. intros i e H. by rewrite lookup_nil in H.
    + split.
      * constructor; [|done]. by left.
      * intros i e _ Hi. simpl in Hi. lia.
  - rewrite (write_loop_newline _ _ _ Hl1). cbn zeta. simpl.
    destruct (IH {| buffered_output := buffered_output self; column := 0;
                    colored := colored_after self (l1 ++ LF :: l2) |})
      as [IH1 IH2].
    split.
    + constructor; [|done]. right. by exists l1.
    + intros [|i] e He Hi.
      * injection He as <-. by exists l1.
      * simpl in He. apply (IH2 i e He). lia.
Qed.

(** X4: [write] puts the output on the console line by line, as its
    docstring says: every console write holds no newline or ends in its
    only one, a reset escape only follows a newline, and only the last
    write of a call can be without newline. *)
Theorem write_line_by_line (self : OutputWriter) (chunk : str) :
  Forall one_line (write self chunk).2
  ∧ ∀ i e, (write self chunk).2 !! i = Some e →
           S i < length (write self chunk).2 →
           newline_terminated (line_string e).
Proof. rewrite write_eq. apply write_loop_lines. Qed.

Lemma write_loop_colored_tagged self string :
  colored (write_loop self string).1
  = colored self || existsb tagged (write_loop self string).2.
Proof.
  revert self. induction string as [s Hs|l1 l2 Hl1 IH] using lines_ind;
    intros self.
  - rewrite (write_loop_no_newline _ _ Hs).
    destruct ((column self =? 0) && (length s <? 2)); simpl.
    + by rewrite orb_false_r.
    + unfold colored_after.
      by destruct (line_tag self s), (colored self).
  - rewrite (write_loop_newline _ _ _ Hl1). cbn zeta. simpl.
    rewrite IH. simpl. unfold colored_after.
    by destruct (line_tag self (l1 ++ LF :: l2)), (colored self).
Qed.

(** X5: the colour flag is set exactly by a console write that passed the
    tag test: after any chunks it is set if it was set before or one of
    the writes was tagged, and not otherwise. *)
Theorem feed_colored_by_tag (self : OutputWriter) (chunks : list str) :
  colored (feed self chunks).1
  = colored self || existsb tagged (feed self chunks).2.
Proof.
  revert self. induction chunks as [|chunk chunks IH]; intros self.
  - simpl. by rewrite orb_false_r.
  - rewrite feed_cons. cbn [fst snd]. rewrite IH, existsb_app, orb_assoc.
    f_equal. rewrite write_eq.
    exact (write_loop_colored_tagged (cleared self) _).
Qed.

(** X6: a whole tagged line at a line start: with nothing buffered and at
    column 0, the line [k ":" body "\n"] with [k] a key of [COLORS] is
    written in one piece as the colour of [k], the line and the reset
    escape; the writer is at column 0 again with the colour flag set. *)
Theorem write_tagged_line (self : OutputWriter) (k : ascii)
  (color body : str) :
  buffered_output self = [] →
  column self = 0 →
  COLORS !! k = Some color →
  LF ∉ body →
  write self (k :: ":"%char :: body ++ [LF])
  = ({| buffered_output := []; column := 0; colored := true |},
     [{| at_column := 0; tagged := true; prefix := color;
         line_string := k :: ":"%char :: body ++ [LF];
         suffix := NO_COLOR |}]).
Proof.
  intros Hbuf Hcol Hk Hbody.
  destruct self as [buf col clr]. simpl in Hbuf, Hcol. subst buf col.
  rewrite write_eq. unfold cleared. simpl.
  assert (Hnl : LF ∉ k :: ":"%char :: body).
  { rewrite !not_elem_of_cons. split; [|split; [done|done]].
    intros <-. by rewrite newline_not_a_tag in Hk. }
  change (k :: ":"%char :: body ++ [LF])
    with ((k :: ":"%char :: body) ++ LF :: []).
  rewrite (write_loop_newline _ _ _ Hnl). cbn zeta.
  rewrite (write_loop_no_newline _ [] (not_elem_of_nil LF)). simpl.
  assert (Htag : line_tag {| buffered_output := []; column := 0;
                             colored := clr |}
                          (k :: ":"%char :: body ++ [LF]) = true).
  { unfold line_tag. simpl. rewrite Hk.
    by rewrite !bool_decide_eq_true_2. }
  unfold colored_after, prefix_for, tag_color. rewrite Htag. simpl.
  by rewrite Hk.
Qed.

Lemma write_tagged_line_witness :
  write OutputWriter_init ("E"%char :: ":"%char :: lit " oops" ++ [LF])
  = ({| buffered_output := []; column := 0; colored := true |},
     [{| at_column := 0; tagged := true; prefix := LT_RED;
         line_string := "E"%char :: ":"%char :: lit " oops" ++ [LF];
         suffix := NO_COLOR |}]).
Proof.
  apply (write_tagged_line OutputWriter_init "E" LT_RED (lit " oops")).
  - reflexivity.
  - reflexivity.
  - by vm_compute.
  - apply (bool_decide_unpack _). by vm_compute.
Defined.

Lemma line_tag_needs_colon self (string : str) :
  ":"%char ∉ string → line_tag self string = false.
Proof.
  intros Hno. unfold line_tag.
  rewrite (bool_decide_eq_false_2 (string !! 1 = Some ":"%char)).
  - by rewrite andb_false_r.
  - intros H. apply Hno. by eapply list_elem_of_lookup_2.
Qed.

Lemma write_loop_plain self string :
  colored self = false →
  ":"%char ∉ string →
  colored (write_loop self string).1 = false
  ∧ stdout_of (write_loop self string).2
    = payload_of (write_loop self string).2.
Proof.
  revert self. induction string as [s Hs|l1 l2 Hl1 IH] using lines_ind;
    intros self Hclr Hno.
  - rewrite (write_loop_no_newline _ _ Hs).
    destruct ((column self =? 0) && (length s <? 2)); simpl; [done|].
    unfold colored_after, prefix_for.
    rewrite (line_tag_needs_colon _ _ Hno). split; [done|].
    rewrite stdout_of_cons, payload_of_cons. unfold rendered. simpl.
    by rewrite !app_nil_r.
  - rewrite (write_loop_newline _ _ _ Hl1). cbn zeta. simpl.
    unfold colored_after, prefix_for.
    rewrite (line_tag_needs_colon _ _ Hno), Hclr.
    apply not_elem_of_app in Hno as [_ Hno].
    apply not_elem_of_cons in Hno as [_ Hno].
    destruct (IH {| buffered_output := buffered_output self; column := 0;
                    colored := false |} eq_refl Hno) as [IH1 IH2].
    split; [done|].
    rewrite stdout_of_cons, payload_of_cons, IH2. unfold rendered. simpl.
    by rewrite app_nil_r.
Qed.

(** X7: without a colon there is no colour: if the colour flag is not set
    and neither the buffered byte nor the chunk holds a [':'], the console
    receives the bytes themselves, with no escape sequence, all but the
    byte held back, and the flag stays unset. *)
Theorem write_plain_passthrough (self : OutputWriter) (chunk : str) :
  colored self = false →
  ":"%char ∉ buffered_output self ++ chunk →
  stdout_of (write self chunk).2 ++ buffered_output (write self chunk).1
    = buffered_output self ++ chunk
  ∧ colored (write self chunk).1 = false.
Proof.
  intros Hclr Hno.
  pose proof (write_payload self chunk) as Hpay.
  rewrite write_eq in *.
  destruct (write_loop_plain (cleared self) _ Hclr Hno) as [H1 H2].
  by rewrite H2.
Qed.

Lemma write_plain_passthrough_witness :
  stdout_of (write OutputWriter_init (lit "ready" ++ [LF] ++ lit ">")).2
    ++ buffered_output
         (write OutputWriter_init (lit "ready" ++ [LF] ++ lit ">")).1
    = buffered_output OutputWriter_init ++ lit "ready" ++ [LF] ++ lit ">"
  ∧ colored (write OutputWriter_init (lit "ready" ++ [LF] ++ lit ">")).1
    = false.
Proof.
  apply (write_plain_passthrough OutputWriter_init
           (lit "ready" ++ [LF] ++ lit ">")).
  - reflexivity.
  - apply (bool_decide_unpack _). by vm_compute.
Defined.

(** X8: a reachable writer holds back at most one byte, never a newline,
    and only while it is at column 0. *)
Theorem reachable_buffer_at_line_start (self : OutputWriter) :
  reachable self → held_at_line_start self.
Proof. apply reachable_held. Qed.

Lemma reachable_buffer_at_line_start_witness :
  held_at_line_start (write OutputWriter_init (lit "W")).1.
Proof.
  apply (reachable_buffer_at_line_start (write OutputWriter_init (lit "W")).1).
  apply (reachable_write OutputWriter_init). constructor.
Defined.

(** ** More on is_teensy *)

Lemma vendor_qualifies_dec device :
  vendor_qualifies device ∨ ¬ vendor_qualifies device.
Proof.
  destruct (properties device !! "ID_VENDOR"%string) as [vendor|] eqn:Hv.
  - destruct (startswith vendor "Teensy") eqn:Hs.
    + left. apply startswith_spec in Hs as [rest ->].
      by exists ("Teensy" ++ rest)%string, rest.
    + right. intros (vendor' & rest & Hv' & ->).
      rewrite Hv in Hv'. injection Hv' as ->.
      assert (startswith ("Teensy" ++ rest)%string "Teensy" = true)
        by (apply startswith_spec; by exists rest).
      congruence.
  - right. intros (vendor & rest & Hv' & _). congruence.
Qed.

Lemma is_teensy_Raise device serial_num e :
  is_teensy device serial_num = Raise e
  ↔ vendor_qualifies device
    ∧ is_Some serial_num
    ∧ properties device !! "ID_SERIAL_SHORT"%string = None
    ∧ e = KeyError "ID_SERIAL_SHORT".
Proof.
  destruct (vendor_qualifies_dec device) as [Hq|Hq].
  - rewrite (is_teensy_vendor _ _ Hq).
    destruct serial_num as [wanted|].
    + destruct (properties device !! "ID_SERIAL_SHORT"%string) as [serial|].
      * split; [done|]. by intros (_ & _ & ? & _).
      * split.
        -- intros [= <-]. by repeat split.
        -- by intros (_ & _ & _ & ->).
    + split; [done|]. intros (_ & [? ?] & _). done.
  - rewrite (is_teensy_other_vendor _ _ Hq).
    split; [done|]. by intros [? _].
Qed.

(** X9: [is_teensy] raises in one case only: a serial number is asked
    for, the vendor begins with "Teensy", and the device has no serial
    number property; the exception is the [KeyError] of that lookup. In
    particular it never raises when no serial number is asked for. *)
Theorem is_teensy_raises_iff (device : Device) (serial_num : option string)
  (e : exn) :
  is_teensy device serial_num = Raise e
  ↔ vendor_qualifies device
    ∧ is_Some serial_num
    ∧ properties device !! "ID_SERIAL_SHORT"%string = None
    ∧ e = KeyError "ID_SERIAL_SHORT".
Proof. apply is_teensy_Raise. Qed.

(** ** More on the session *)

Lemma handle_Continue s ev s1 :
  handle s ev = Continue s1 →
  port_name s1 = port_name s ∧ port_open s1 = port_open s.
Proof.
  destruct ev as [dev|[data|]|[|c data] [[]|]]; simpl; try discriminate.
  - destruct (_ || _); [|discriminate]. by intros [= <-].
  - by intros [= <-].
  - by intros [= <-].
Qed.

Lemma handle_Return s ev s' : handle s ev = Return s' → s' = disconnect s.
Proof.
  destruct ev as [dev|[data|]|[|c data] [[]|]]; simpl; try discriminate.
  - destruct (_ || _); [discriminate|]. by intros [= <-].
  - by intros [= <-].
Qed.

Lemma handle_Raised s ev e s' :
  handle s ev = Raised e s' →
  s' = s ∧ (e = IndexError ∨ e = SerialException) ∧ ¬ harmless ev.
Proof.
  destruct ev as [dev|[data|]|[|c data] [[]|]]; simpl; try discriminate.
  - destruct (_ || _); discriminate.
  - intros [= <- <-]. split; [done|]. split; [by left|]. by intros [? _].
  - intros [= <- <-]. split; [done|]. split; [by left|]. by intros [? _].
  - intros [= <- <-]. split; [done|]. split; [by right|]. by intros [_ ?].
Qed.

Lemma port_kept_step s s1 o :
  port_name s1 = port_name s → port_open s1 = port_open s →
  port_kept s1 o → port_kept s o.
Proof.
  intros Hname Hopen [H1 H2]. split; [congruence|].
  destruct o; rewrite <- ?Hname, <- ?Hopen; done.
Qed.

Lemma port_kept_disconnect s : port_kept s (Return (disconnect s)).
Proof.
  split; [done|]. split; [done|]. simpl. by rewrite last_snoc.
Qed.

Lemma for_events_port s events : port_kept s (for_events s events).
Proof.
  revert s. induction events as [|ev events IH]; intros s; simpl; [done|].
  destruct (handle s ev) as [s1|s'|e s'] eqn:Hev.
  - apply handle_Continue in Hev as [Hname Hopen].
    by eapply port_kept_step.
  - apply handle_Return in Hev as ->. apply port_kept_disconnect.
  - apply handle_Raised in Hev as [-> _]. done.
Qed.

(** X10: the loop of [teensy_mon] and the port: whenever the loop returns,
    the port has been closed and the disconnect message is the last thing
    on the console; while the session is live, and when an exception
    leaves it, the port is as it was, so an exception never closes it. The
    port name is the same throughout. *)
Theorem session_loop_port (s : Session) (polls : list (list ready)) :
  port_kept s (session_loop s polls).
Proof.
  revert s. induction polls as [|events polls IH]; intros s; simpl; [done|].
  pose proof (for_events_port s events) as Hev.
  destruct (for_events s events) as [s1|s'|e s']; [|done|done].
  destruct Hev as [Hname Hopen]. by eapply port_kept_step.
Qed.





Lemma feed_app self (chunks1 chunks2 : list str) :
  feed self (chunks1 ++ chunks2)
  = ((feed (feed self chunks1).1 chunks2).1,
     (feed self chunks1).2 ++ (feed (feed self chunks1).1 chunks2).2).
Proof.
  revert self. induction chunks1 as [|chunk chunks1 IH]; intros self.
  - simpl. by destruct (feed self chunks2).
  - simpl app. rewrite !feed_cons, IH. cbn [fst snd].
    by rewrite app_assoc.
Qed.

Lemma reads_app events1 events2 :
  reads (events1 ++ events2) = reads events1 ++ reads events2.
Proof. apply omap_app. Qed.

Lemma handle_console s ev s1 :
  handle s ev = Continue s1 →
  output s1 = (feed (output s) (reads [ev])).1
  ∧ console s1 = console s ++ (Out <$> (feed (output s) (reads [ev])).2).
Proof.
  destruct ev as [dev|[data|]|[|c data] [[]|]]; simpl; try discriminate.
  - destruct (_ || _); [|discriminate]. intros [= <-].
    by rewrite app_nil_r.
  - intros [= <-]. simpl. by rewrite app_nil_r.
  - intros [= <-]. simpl. by rewrite app_nil_r.
Qed.

Lemma for_events_console s events s' :
  for_events s events = Continue s' →
  output s' = (feed (output s) (reads events)).1
  ∧ console s' = console s ++ (Out <$> (feed (output s) (reads events)).2).
Proof.
  revert s. induction events as [|ev events IH]; intros s;
    cbn [for_events].
  - intros [= <-]. simpl. by rewrite app_nil_r.
  - destruct (handle s ev) as [s1|s1|e1 s1] eqn:Hev; try discriminate.
    intros H. apply IH in H as [H1 H2].
    apply handle_console in Hev as [Ho Hc].
    change (ev :: events) with ([ev] ++ events).
    rewrite reads_app, feed_app. cbn [fst snd].
    rewrite <- Ho, fmap_app, app_assoc, <- Hc. done.
Qed.

(** X12: while a session is live, its console shows what the writer makes
    of the serial reads, in their order, and nothing else: typed keys and
    ignored notifications print nothing, and the writer of the session is
    the one those reads leave. *)
Theorem session_console (s s' : Session) (polls : list (list ready)) :
  session_loop s polls = Continue s' →
  output s' = (feed (output s) (reads (concat polls))).1
  ∧ console s'
    = console s ++ (Out <$> (feed (output s) (reads (concat polls))).2).
Proof.
  revert s. induction polls as [|events polls IH]; intros s;
    cbn [session_loop].
  - intros [= <-]. simpl. by rewrite app_nil_r.
  - destruct (for_events s events) as [s1|s1|e1 s1] eqn:Hev; try discriminate.
    intros H. apply IH in H as [H1 H2].
    apply for_events_console in Hev as [Ho Hc].
    change (concat (events :: polls)) with (events ++ concat polls).
    rewrite reads_app, feed_app. cbn [fst snd].
    rewrite <- Ho, fmap_app, app_assoc, <- Hc. done.
Qed.

Lemma session_console_witness :
  output (send (show (show live_session (lit "D: ")) (lit "ok" ++ [LF]))
               (lit "x"))
  = (feed (output live_session)
       (reads (concat [[SerialReady (Done (lit "D: "))];
                       [SerialReady (Done (lit "ok" ++ [LF]));
                        StdinReady (lit "x") (Done ())]]))).1
  ∧ console (send (show (show live_session (lit "D: ")) (lit "ok" ++ [LF]))
                  (lit "x"))
    = console live_session
      ++ (Out <$> (feed (output live_session)
                     (reads (concat
                        [[SerialReady (Done (lit "D: "))];
                         [SerialReady (Done (lit "ok" ++ [LF]));
                          StdinReady (lit "x") (Done ())]]))).2).
Proof.
  apply (session_console live_session _
           [[SerialReady (Done (lit "D: "))];
            [SerialReady (Done (lit "ok" ++ [LF]));
             StdinReady (lit "x") (Done ())]]).
  reflexivity.
Defined.





(** What was sent in the example: the key, then a carriage return for the
    line feed. *)
Example typed_line_feed_is_sent_as_return :
  sent (state_of (session_loop live_session
                    [[StdinReady (lit "l") (Done ())];
                     [StdinReady [LF] (Done ())]]))
  = [lit "l"; [CR]].
Proof. reflexivity. Qed.

(** ** More on the wait loop *)

(** X14: a Teensy that reports no serial number ends the program when it
    is plugged in, whether a serial number was asked for or not: with one,
    [is_teensy] raises the [KeyError]; without, [is_teensy] accepts the
    device and [teensy_mon] raises it on its second line. *)
Theorem wait_loop_teensy_without_serial (serial : option string)
  (screen : list console_item) (note : notification)
  (notes : list notification) :
  action (device note) = Some "add"%string →
  vendor_qualifies (device note) →
  properties (device note) !! "ID_SERIAL_SHORT"%string = None →
  wait_loop serial screen (note :: notes)
  = Exited screen (KeyError "ID_SERIAL_SHORT").
Proof.
  intros Hadd Hq Hnone. cbn [wait_loop].
  rewrite (bool_decide_eq_true_2 _ Hadd). cbn [negb].
  rewrite (is_teensy_vendor _ _ Hq), Hnone.
  destruct serial as [wanted|]; [done|].
  unfold teensy_mon, getitem. by rewrite Hnone.
Qed.

Lemma wait_loop_teensy_without_serial_witness :
  wait_loop None []
    [ {| device := teensy_without_serial; opened := Done (); polls := [] |};
      {| device := teensy_31; opened := Done (); polls := [] |} ]
  = Exited [] (KeyError "ID_SERIAL_SHORT").
Proof.
  apply (wait_loop_teensy_without_serial None []
           {| device := teensy_without_serial; opened := Done ();
              polls := [] |}).
  - reflexivity.
  - exact teensy_without_serial_qualifies.
  - by vm_compute.
Defined.







(** X17: notifications that are not the adding of a matching Teensy have
    no effect: if every Teensy notified reports its serial number, the
    wait loop does the same on all notifications as on those alone for
    which it starts a session. *)
Theorem wait_loop_ignores_others (serial : option string)
  (screen : list console_item) (notes : list notification) :
  Forall (λ note, serial_known (device note)) notes →
  wait_loop serial screen notes
  = wait_loop serial screen (List.filter (starts_session serial) notes).
Proof.
  intros Hknown. revert screen.
  induction Hknown as [|note notes Hnote _ IH]; intros screen; [done|].
  cbn [wait_loop List.filter]. unfold starts_session.
  destruct (bool_decide (action (device note) = Some "add"%string)) eqn:Hadd;
    cbn [negb andb]; [|apply IH].
  destruct (is_teensy (device note) serial) as [[]|e] eqn:Hteensy.
  - cbn [wait_loop]. rewrite Hadd, Hteensy. cbn [negb].
    destruct (teensy_mon _ _ _ _); [done|apply IH|done].
  - apply IH.
  - apply is_teensy_Raise in Hteensy as (Hq & _ & Hnone & _).
    destruct (Hnote Hq) as [? ?]. congruence.
Qed.

Lemma wait_loop_ignores_others_witness :
  wait_loop None []
    [ {| device := ftdi_cable; opened := Done (); polls := [] |};
      {| device := removal_of "/dev/ttyACM0"; opened := Done ();
         polls := [] |};
      {| device := teensy_31; opened := Done (); polls := [] |} ]
  = wait_loop None []
      (List.filter (starts_session None)
         [ {| device := ftdi_cable; opened := Done (); polls := [] |};
           {| device := removal_of "/dev/ttyACM0"; opened := Done ();
              polls := [] |};
           {| device := teensy_31; opened := Done (); polls := [] |} ]).
Proof.
  apply (wait_loop_ignores_others None []).
  repeat constructor.
  - intros _. eexists. by vm_compute.
  - intros (vendor & rest & Hv & _). by vm_compute in Hv.
  - intros _. eexists. by vm_compute.
Defined.

(** ** The listing *)

Lemma found_line_teensy device serial_num :
  vendor_qualifies device →
  properties device !! "ID_SERIAL_SHORT"%string = Some serial_num →
  found_line device = Some (Found serial_num (device_node device)).
Proof.
  intros Hq Hsn. unfold found_line.
  by rewrite (is_teensy_vendor _ _ Hq), Hsn.
Qed.

Lemma found_line_other device :
  ¬ vendor_qualifies device → found_line device = None.
Proof.
  intros Hq. unfold found_line. by rewrite (is_teensy_other_vendor _ _ Hq).
Qed.

Lemma list_loop_complete devices detected lines :
  Forall serial_known devices →
  list_loop devices detected lines
  = Listed (lines ++ match omap found_line devices with
                     | [] => if negb detected then [NoneDetected] else []
                     | found => found
                     end).
Proof.
  intros Hknown. revert detected lines.
  induction Hknown as [|device devices Hdev _ IH]; intros detected lines.
  - simpl. destruct detected; simpl; by rewrite ?app_nil_r.
  - cbn [list_loop omap list_omap].
    destruct (vendor_qualifies_dec device) as [Hq|Hq].
    + destruct (Hdev Hq) as [serial_num Hsn].
      rewrite (found_line_teensy _ _ Hq Hsn).
      rewrite (is_teensy_vendor _ _ Hq). unfold getitem. rewrite Hsn.
      rewrite IH, <- app_assoc. simpl.
      by destruct (omap found_line devices).
    + rewrite (found_line_other _ Hq), (is_teensy_other_vendor _ _ Hq).
      apply IH.
Qed.

(** X18: the listing of [--list]: if every Teensy attached reports its
    serial number, the program prints one line for each Teensy among the
    devices, in their order and with its serial number and node, and
    nothing for the others; it prints that none was detected exactly when
    there is no such line. *)
Theorem main_list_complete (devices : list Device) :
  Forall serial_known devices →
  main_list devices
  = Listed match omap found_line devices with
           | [] => [NoneDetected]
           | found => found
           end.
Proof. intros Hknown. unfold main_list. by rewrite list_loop_complete. Qed.

Lemma main_list_complete_witness :
  main_list [ftdi_cable; teensy_31]
  = Listed match omap found_line [ftdi_cable; teensy_31] with
           | [] => [NoneDetected]
           | found => found
           end.
Proof.
  apply (main_list_complete [ftdi_cable; teensy_31]).
  repeat constructor; intros _; eexists; by vm_compute.
Defined.

(** What the listing of the example prints. *)
Example main_list_example :
  main_list [ftdi_cable; teensy_31] = Listed [Found "12345" "/dev/ttyACM0"]
  ∧ main_list [ftdi_cable] = Listed [NoneDetected].
Proof. by vm_compute. Qed.

Lemma list_loop_raises devices detected lines :
  (∃ lines', list_loop devices detected lines
             = ListingRaised lines' (KeyError "ID_SERIAL_SHORT"))
  ↔ Exists (λ device, vendor_qualifies device
                      ∧ properties device !! "ID_SERIAL_SHORT"%string = None)
           devices.
Proof.
  revert detected lines.
  induction devices as [|device devices IH]; intros detected lines.
  - simpl. split; [by intros [? ?]|]. intros H. by apply Exists_nil in H.
  - cbn [list_loop]. rewrite Exists_cons.
    destruct (vendor_qualifies_dec device) as [Hq|Hq].
    + rewrite (is_teensy_vendor _ _ Hq). unfold getitem.
      destruct (properties device !! "ID_SERIAL_SHORT"%string)
        as [serial_num|] eqn:Hsn.
      * rewrite IH. split; [by right|]. intros [[_ ?]|?]; done.
      * split; [by left|]. intros _. by exists lines.
    + rewrite (is_teensy_other_vendor _ _ Hq), IH.
      split; [by right|]. intros [[? _]|?]; done.
Qed.

(** X19: the listing breaks off with the [KeyError] of the serial number
    lookup exactly if some Teensy among the devices reports no serial
    number. *)
Theorem main_list_raises_iff (devices : list Device) :
  (∃ lines, main_list devices
            = ListingRaised lines (KeyError "ID_SERIAL_SHORT"))
  ↔ Exists (λ device, vendor_qualifies device
                      ∧ properties device !! "ID_SERIAL_SHORT"%string = None)
           devices.
Proof. apply list_loop_raises. Qed.

(** ** The terminal settings *)

Lemma raw_settings_cases termios old :
  raw_settings termios old
  = if (VTIME termios <? length (cc old)) && (VMIN termios <? length (cc old))
    then Ok {| iflag := iflag old; oflag := oflag old; cflag := cflag old;
               lflag := Z.land (lflag old)
                          (Z.lnot (Z.lor (ICANON termios) (ECHO termios)));
               ispeed := ispeed old; ospeed := ospeed old;
               cc := <[VMIN termios := CcInt 1]>
                       (<[VTIME termios := CcInt 0]> (cc old)) |}
    else Raise IndexError.
Proof.
  unfold raw_settings, setitem.
  destruct (VTIME termios <? length (cc old)); [|done].
  simpl. rewrite length_insert.
  by destruct (VMIN termios <? length (cc old)).
Qed.

(** X20: the change to the local modes turns off canonical mode and echo
    and nothing else: in the new settings a flag bit is set exactly if it
    was set before and is a bit of neither [ICANON] nor [ECHO]; the input,
    output and control modes and the speeds are as they were. *)
Theorem raw_settings_flags (termios : termios_module) (old new : tty_attr) :
  raw_settings termios old = Ok new →
  (∀ i, (0 ≤ i)%Z →
        Z.testbit (lflag new) i
        = Z.testbit (lflag old) i
          && negb (Z.testbit (ICANON termios) i || Z.testbit (ECHO termios) i))
  ∧ iflag new = iflag old ∧ oflag new = oflag old ∧ cflag new = cflag old
  ∧ ispeed new = ispeed old ∧ ospeed new = ospeed old.
Proof.
  rewrite raw_settings_cases. destruct (_ && _); [|discriminate].
  intros [= <-]. simpl. split; [|done].
  intros i Hi. by rewrite Z.land_spec, Z.lnot_spec, Z.lor_spec.
Qed.

Lemma raw_settings_flags_witness :
  ∃ new, raw_settings linux_termios cooked = Ok new
  ∧ (∀ i, (0 ≤ i)%Z →
          Z.testbit (lflag new) i
          = Z.testbit (lflag cooked) i
            && negb (Z.testbit (ICANON linux_termios) i
                     || Z.testbit (ECHO linux_termios) i))
  ∧ iflag new = iflag cooked ∧ oflag new = oflag cooked
  ∧ cflag new = cflag cooked
  ∧ ispeed new = ispeed cooked ∧ ospeed new = ospeed cooked.
Proof.
  eexists. split; [reflexivity|].
  apply (raw_settings_flags linux_termios cooked). reflexivity.
Defined.

(** X21: the change to the control characters: it succeeds exactly if
    [VTIME] and [VMIN] are indices of the list, and raises [IndexError]
    otherwise; when it succeeds the list is as long as before, holds 1 at
    [VMIN] and 0 at [VTIME] (1 wins if the two are the same index), and
    is unchanged everywhere else. *)
Theorem raw_settings_cc (termios : termios_module) (old : tty_attr) :
  match raw_settings termios old with
  | Ok new =>
      VTIME termios < length (cc old) ∧ VMIN termios < length (cc old)
      ∧ length (cc new) = length (cc old)
      ∧ cc new !! VMIN termios = Some (CcInt 1)
      ∧ (VTIME termios ≠ VMIN termios →
         cc new !! VTIME termios = Some (CcInt 0))
      ∧ ∀ i, i ≠ VTIME termios → i ≠ VMIN termios →
             cc new !! i = cc old !! i
  | Raise e =>
      e = IndexError
      ∧ ¬ (VTIME termios < length (cc old)
           ∧ VMIN termios < length (cc old))
  end.
Proof.
  rewrite raw_settings_cases.
  destruct (Nat.ltb_spec (VTIME termios) (length (cc old))) as [Ht|Ht];
    [destruct (Nat.ltb_spec (VMIN termios) (length (cc old))) as [Hm|Hm]|];
    simpl.
  - split; [done|]. split; [done|].
    split; [by rewrite !length_insert|].
    split; [apply list_lookup_insert_eq; by rewrite length_insert|].
    split.
    + intros Hne. rewrite list_lookup_insert_ne by done.
      by apply list_lookup_insert_eq.
    + intros i Hi1 Hi2. by rewrite !list_lookup_insert_ne.
  - split; [done|]. lia.
  - split; [done|]. lia.
Qed.
